(** * fastchess: the MCTS move-selection controller of [play_chess.py]

    A shallow embedding of the class [MCTS_Model] (methods [print_pvs] and
    [find_move]) together with the Python built-ins it relies on.  Python
    integers are [Z]; exceptions, console output and calls into the search
    engine are threaded through a small state-and-error monad whose state is
    the controller object plus a trace of observable events. *)

From Stdlib Require Import ZArith List String Ascii Bool Lia DecimalString.
From Stdlib Require Import Permutation Sorted.
Import ListNotations.
Open Scope Z_scope.

(** ** Python built-ins used by the controller *)

Inductive exn : Set :=
| AttributeError
| ValueError
| ZeroDivisionError
| IndexError.

(** The result of running a piece of Python: a value, a raised exception, or
    an exhausted recursion budget (the model's stand-in for a call that is
    still recursing). *)
Inductive outcome (A : Type) : Type :=
| Ret (a : A)
| Raise (e : exn)
| OutOfFuel.
Arguments Ret {A} a.
Arguments Raise {A} e.
Arguments OutOfFuel {A}.

Definition is_ret {A} (o : outcome A) : bool :=
  match o with Ret _ => true | _ => false end.

Section Builtins.
Context {A : Type}.

(** [sorted] is stable; [before x y] tells whether [x], met earlier in the
    input, stays in front of [y]. *)
Fixpoint insert_sorted (before : A -> A -> bool) (x : A) (l : list A) : list A :=
  match l with
  | [] => [x]
  | y :: l' => if before x y then x :: l else y :: insert_sorted before x l'
  end.

Definition py_sorted (before : A -> A -> bool) (l : list A) : list A :=
  fold_right (insert_sorted before) [] l.

(** [max(iterable, key=...)] on a non-empty iterable with head [best]:
    the first element carrying the largest key. *)
Fixpoint max_from (key : A -> Z) (best : A) (l : list A) : A :=
  match l with
  | [] => best
  | x :: l' => if key best <? key x then max_from key x l' else max_from key best l'
  end.

Definition py_max_by (key : A -> Z) (l : list A) : outcome A :=
  match l with
  | [] => Raise ValueError
  | x :: l' => Ret (max_from key x l')
  end.
End Builtins.

(** [max(generator of ints)]. *)
Definition py_max (l : list Z) : outcome Z := py_max_by (fun z => z) l.

(** [a / b < .2] on Python ints: true division, compared as rationals
    (the float quotient of two counts below 2^56 compares with the float
    literal [.2] exactly as the rational quotient compares with 1/5). *)
Definition below_fifth (a b : Z) : bool :=
  if 0 <? b then 5 * a <? b else b <? 5 * a.

Definition py_div_below_fifth (a b : Z) : outcome bool :=
  if b =? 0 then Raise ZeroDivisionError else Ret (below_fifth a b).

Definition py_str (z : Z) : string := NilZero.string_of_int (Z.to_int z).

Definition nl : string := String (ascii_of_nat 10) EmptyString.
Definition esc : string := String (ascii_of_nat 27) EmptyString.

(** The two fixed console lines of [find_move], as [print] writes them. *)
Definition thinking_notice : string := ("Thinking extra deeply." ++ nl)%string.
Definition creating_notice : string := ("Creating new node." ++ nl)%string.

Fixpoint py_repeat (s : string) (n : nat) : string :=
  match n with
  | O => EmptyString
  | S n' => (s ++ py_repeat s n')%string
  end.

Definition join (sep : string) (l : list string) : string := String.concat sep l.

(** Observable effects of the controller, oldest first. *)
Inductive event : Set :=
| Rollout
| Print (text : string).

Definition is_rollout (e : event) : bool :=
  match e with Rollout => true | Print _ => false end.

Definition rollouts (t : list event) : nat :=
  List.length (filter is_rollout t).

(** ** The search tree and the external collaborators *)

Section SearchNode.
Variables Board Move Prior Value : Type.

(** [mcts.Node], as far as the controller reads it. *)
#[warnings="-register-all"]
Inductive Node : Type := mkNode {
  board : Board;
  parent_board : option Board;
  move : option Move;
  N : Z;
  Q : Value;
  P : Prior;
  children : list Node
}.
End SearchNode.

Arguments mkNode {Board Move Prior Value}.
Arguments board {Board Move Prior Value} n.
Arguments parent_board {Board Move Prior Value} n.
Arguments move {Board Move Prior Value} n.
Arguments N {Board Move Prior Value} n.
Arguments Q {Board Move Prior Value} n.
Arguments P {Board Move Prior Value} n.
Arguments children {Board Move Prior Value} n.

(** What the controller consumes from outside this file: the rules engine
    ([chess.Board], [chess.Move]), float formatting, and the search engine. *)
Class Engine (Board Move Prior Value : Type) : Type := {
  board_eqb : Board -> Board -> bool;          (* Board.__eq__ *)
  san : Board -> option Move -> string;        (* Board.san *)
  prior_ltb : Prior -> Prior -> bool;          (* P < P' *)
  fmt_prior : Prior -> string;                 (* f'{P:.1%}' *)
  fmt_share : Z -> Z -> string;                (* f'{a/b:.1%}', b <> 0 *)
  fmt_neg_value : Value -> string;             (* f'{float(-Q):.2}' *)
  zero_prior : Prior;
  zero_value : Value;
  (* Node.rollout: one search iteration, mutating the subtree in place *)
  rollout : Node Board Move Prior Value -> Node Board Move Prior Value
}.

(** ** The controller's state and its effects *)

Section State.
Context {Board Move Prior Value : Type}.

#[local] Abbreviation Node := (Node Board Move Prior Value).

Fixpoint height (n : Node) : nat :=
  match n with
  | mkNode _ _ _ _ _ _ cs =>
      match cs with
      | [] => O
      | _ => S (fold_right Nat.max O (map height cs))
      end
  end.

(** The fields of [MCTS_Model] ([self.model] is only handed to the engine). *)
Record MCTS_Model : Type := mkModel {
  rolls : Z;
  pvs : Z;
  node : option Node
}.

Record world : Type := mkWorld {
  self : MCTS_Model;
  trace : list event
}.

Definition M (A : Type) : Type := world -> outcome A * world.

Definition ret {A} (a : A) : M A := fun w => (Ret a, w).
Definition raise {A} (e : exn) : M A := fun w => (Raise e, w).
Definition diverge {A} : M A := fun w => (OutOfFuel, w).
Definition bind {A B} (m : M A) (k : A -> M B) : M B :=
  fun w =>
    match m w with
    | (Ret a, w') => k a w'
    | (Raise e, w') => (Raise e, w')
    | (OutOfFuel, w') => (OutOfFuel, w')
    end.
Definition lift {A} (o : outcome A) : M A := fun w => (o, w).

Definition emit (e : event) : M unit :=
  fun w => (Ret tt, mkWorld (self w) (trace w ++ [e])).
Definition print (text : string) : M unit := emit (Print text).

Definition get_self : M MCTS_Model := fun w => (Ret (self w), w).
Definition set_node (n : Node) : M unit :=
  fun w => (Ret tt, mkWorld (mkModel (rolls (self w)) (pvs (self w)) (Some n)) (trace w)).

(** [self.node.<attr>]: attribute access on [None] raises. *)
Definition the_node : M Node :=
  fun w =>
    match node (self w) with
    | Some n => (Ret n, w)
    | None => (Raise AttributeError, w)
    end.

(** [for i in range(n): body(i)], counting from [i]. *)
Fixpoint for_from (i : Z) (n : nat) (body : Z -> M unit) : M unit :=
  match n with
  | O => ret tt
  | S n' => bind (body i) (fun _ => for_from (i + 1) n' body)
  end.
Definition for_range (n : Z) (body : Z -> M unit) : M unit :=
  for_from 0 (Z.to_nat n) body.
End State.

Arguments MCTS_Model : clear implicits.
Arguments world : clear implicits.
Arguments M : clear implicits.

Notation "x <- m ;; k" := (bind m (fun x => k))
  (at level 61, m at next level, right associativity).
Notation "m ;; k" := (bind m (fun _ => k))
  (at level 61, right associativity).

(** ** The controller *)

Section Controller.
Context {Board Move Prior Value : Type} {E : Engine Board Move Prior Value}.

#[local] Abbreviation Node := (Node Board Move Prior Value).
#[local] Abbreviation M := (M Board Move Prior Value).

(** Modelled from the spec: the constructor [mcts.Node(board, None, 0, model)]
    lives in [mcts.py]; a fresh root wraps the board, has no parent and no
    originating move, no statistics and no children until its first visit. *)
Definition new_node (b : Board) : Node :=
  mkNode b None None 0 zero_value zero_prior [].


(** [self.node.rollout()] *)
Definition do_rollout : M unit :=
  n <- the_node ;; emit Rollout ;; set_node (rollout n).

(** *** print_pvs *)

(** The iterations of [while node.children] below the root: follow the
    most visited child.  The recursion budget is the height of the tree. *)
Fixpoint pv_descend (fuel : nat) (nd : Node) (pv : list string)
  : outcome (list string) :=
  match children nd with
  | [] => Ret pv
  | c :: cs =>
      match fuel with
      | O => OutOfFuel
      | S fuel' =>
          let nd' := max_from N c cs in
          match parent_board nd' with
          | None => Raise AttributeError
          | Some pb => pv_descend fuel' nd' (pv ++ [san pb (move nd')])
          end
      end
  end.

(** The whole [while] loop for line [i]: the first iteration takes the
    [i]-th child in decreasing visit order and annotates it. *)
Definition pv_moves (root : Node) (i : Z) : outcome (list string) :=
  match children root with
  | [] => Ret []
  | _ =>
      match nth_error (py_sorted (fun x y => - N x <=? - N y) (children root))
                      (Z.to_nat i) with
      | None => Raise IndexError
      | Some nd =>
          match parent_board nd with
          | None => Raise AttributeError
          | Some pb =>
              if N root =? 0 then Raise ZeroDivisionError
              else
                let s := (san pb (move nd) ++ " " ++ fmt_share (N nd) (N root)
                          ++ " (" ++ fmt_neg_value (Q nd) ++ ")")%string in
                pv_descend (height nd) nd [s]
          end
      end
  end.

(** [if len(pv) >= 10: pv = pv[:10] + ['...']] *)
Definition clip_pv (pv : list string) : list string :=
  if 10 <=? Z.of_nat (List.length pv) then firstn 10 pv ++ ["..."%string] else pv.

Definition print_pvs : M unit :=
  root <- the_node ;;
  s <- get_self ;;
  let k := Z.min (pvs s) (Z.of_nat (List.length (children root))) in
  for_range k (fun i =>
    pv <- lift (pv_moves root i) ;;
    print ("Pv" ++ py_str (i + 1) ++ ": " ++ join ", " (clip_pv pv) ++ nl)) ;;
  print (esc ++ "[1000D") ;;
  print (esc ++ "[" ++ py_str k ++ "A").

(** *** find_move *)

(** Lines 128-133: look for the board among the children of the root. *)
Definition reuse_lookup (b : Board) : M unit :=
  s <- get_self ;;
  match node s with
  | None => ret tt
  | Some r =>
      match find (fun n => board_eqb (board n) b) (children r) with
      | Some n => set_node n
      | None => ret tt
      end
  end.

(** Lines 136-139. *)
Definition make_new_node (b : Board) (debug : bool) : M unit :=
  s <- get_self ;;
  let stale :=
    match node s with
    | None => true
    | Some r => negb (board_eqb (board r) b)
    end in
  if stale then
    set_node (new_node b) ;;
    (if debug then print creating_notice else ret tt)
  else ret tt.

(** Lines 128-139: the root this call searches from. *)
Definition acquire_root (b : Board) (debug : bool) : M unit :=
  reuse_lookup b ;;
  make_new_node b debug.

(** Lines 144-145: the text of the priors line for root [r]. *)
Definition priors_line (b : Board) (r : Node) : string :=
  let nodes :=
    firstn 7 (py_sorted (fun x y => negb (prior_ltb (P x) (P y))) (children r)) in
  ("Priors: "
   ++ join ", " (map (fun n => (san b (move n) ++ " " ++ fmt_prior (P n))%string) nodes)
   ++ nl)%string.

(** Lines 142-145. *)
Definition print_priors (b : Board) : M unit :=
  s <- get_self ;;
  if pvs s =? 0 then ret tt
  else
    do_rollout ;;
    r <- the_node ;;
    print (priors_line b r).

(** Lines 148-151. *)
Definition iteration_loop : M unit :=
  s <- get_self ;;
  for_range (rolls s) (fun i =>
    do_rollout ;;
    if negb (pvs s =? 0) && ((i mod 100 =? 0) || (i =? rolls s - 1))
    then print_pvs else ret tt).

(** Lines 153-154. *)
Definition clean_up : M unit :=
  s <- get_self ;;
  if pvs s =? 0 then ret tt else print (py_repeat nl (Z.to_nat (pvs s))).

(** Everything up to the concentration test: one search round. *)
Definition search_round (b : Board) (debug : bool) : M unit :=
  acquire_root b debug ;;
  print_priors b ;;
  iteration_loop ;;
  clean_up.

(** Line 155: [max(n.N for n in self.node.children)/self.node.N < .2] *)
Definition concentration_low : M bool :=
  r <- the_node ;;
  top <- lift (py_max (map N (children r))) ;;
  lift (py_div_below_fifth top (N r)).

(** Lines 160-166.  [MCTS_Model] has no attribute [children], so the
    stochastic branch raises while building [counts]. *)
Definition pick_child (pick_random : bool) : M (option Move) :=
  (if pick_random then raise AttributeError
   else
     r <- the_node ;;
     best <- lift (py_max_by N (children r)) ;;
     set_node best) ;;
  chosen <- the_node ;;
  ret (move chosen).

Fixpoint find_move (fuel : nat) (b : Board) (debug pick_random : bool)
  : M (option Move) :=
  match fuel with
  | O => diverge
  | S fuel' =>
      search_round b debug ;;
      low <- concentration_low ;;
      if low then
        print thinking_notice ;;
        find_move fuel' b debug pick_random
      else pick_child pick_random
  end.

End Controller.

(** ** Vocabulary for the statements

    Worlds that differ from a given one by the root or by extra output, the
    number of engine calls one search round makes, and the shapes of claims
    that are compared with the code. *)

Section Vocabulary.
Context {Board Move Prior Value : Type} {E : Engine Board Move Prior Value}.

#[local] Abbreviation Node := (Node Board Move Prior Value).
#[local] Abbreviation M := (M Board Move Prior Value).
#[local] Abbreviation world := (world Board Move Prior Value).
#[local] Abbreviation MCTS_Model := (MCTS_Model Board Move Prior Value).

Definition with_node (n : Node) (w : world) : world :=
  mkWorld (mkModel (rolls (self w)) (pvs (self w)) (Some n)) (trace w).

Definition say (out : list event) (w : world) : world :=
  mkWorld (self w) (trace w ++ out).

(** Engine calls of one round: the budget, plus one when [pvs] is set. *)
Definition budget (s : MCTS_Model) : nat :=
  Z.to_nat (rolls s) + (if pvs s =? 0 then O else 1%nat).

(** A computation that leaves the controller object alone and calls the
    engine not at all: whatever it does is console output. *)
Definition quiet {A} (m : M A) : Prop :=
  forall w, exists out,
    snd (m w) = say out w /\ rollouts out = O.

(** A computation that ends, with a value or an exception, from every world. *)
Definition settles {A} (m : M A) : Prop :=
  forall w, fst (m w) <> OutOfFuel.

(** The spec's reading of the failure on a board without legal moves: an
    error of its own, not the one that an aggregate over the empty children
    collection raises. *)
Definition no_legal_move_signal {A} (o : outcome A) : Prop :=
  exists e, o = Raise e /\ py_max [] <> Raise e.

(** The root [acquire_root] settles on, as a function of the old one. *)
Definition reused_root (b : Board) (old : option Node) : option Node :=
  match old with
  | None => None
  | Some r =>
      match find (fun n => board_eqb (board n) b) (children r) with
      | Some n => Some n
      | None => if board_eqb (board r) b then Some r else None
      end
  end.
End Vocabulary.

(** ** A small concrete engine, used to run the controller on examples

    Boards are numbered positions: position [0] has no legal move, positions
    below [20] have exactly one (leading to the position one lower), and any
    other position has three (leading one, two and three lower).  A rollout
    counts the visit, expands an unexpanded node, and otherwise recurses into
    the least visited child. *)

Module Toy.
Definition TNode : Type := Node nat nat Z Z.

Definition legal_moves (b : nat) : list nat :=
  if (b =? 0)%nat then [] else if (b <? 20)%nat then [0%nat] else [0; 1; 2]%nat.

Definition push (b m : nat) : nat := (b - 1 - m)%nat.

Definition expand (b : nat) : list TNode :=
  map (fun m => mkNode (push b m) (Some b) (Some m) 0 0 (Z.of_nat (30 + m)) [])
      (legal_moves b).

(** Position of the first smallest number of a list. *)
Fixpoint argmin_from (best : Z) (at_ : nat) (i : nat) (l : list Z) : nat :=
  match l with
  | [] => at_
  | x :: l' => if x <? best then argmin_from x i (S i) l' else argmin_from best at_ (S i) l'
  end.

Definition least_visited (cs : list TNode) : nat :=
  match map N cs with
  | [] => O
  | x :: l => argmin_from x O 1%nat l
  end.

Fixpoint toy_rollout (n : TNode) : TNode :=
  match n with
  | mkNode b pb m visits q p cs =>
      match cs with
      | [] => mkNode b pb m (visits + 1) q p (expand b)
      | _ =>
          let target := least_visited cs in
          mkNode b pb m (visits + 1) q p
            ((fix go (i : nat) (l : list TNode) : list TNode :=
                match l with
                | [] => []
                | c :: l' => (if (i =? target)%nat then toy_rollout c else c) :: go (S i) l'
                end) O cs)
      end
  end.

Definition toy_san (b : nat) (m : option nat) : string :=
  match m with
  | Some k => ("m" ++ py_str (Z.of_nat b) ++ "." ++ py_str (Z.of_nat k))%string
  | None => "--"%string
  end.

#[export] Instance engine : Engine nat nat Z Z := {
  board_eqb := Nat.eqb;
  san := toy_san;
  prior_ltb := Z.ltb;
  fmt_prior := fun p => (py_str p ++ "%")%string;
  fmt_share := fun a b => (py_str (100 * a / b) ++ "%")%string;
  fmt_neg_value := fun q => py_str (- q);
  zero_prior := 0;
  zero_value := 0;
  rollout := toy_rollout
}.

Definition TWorld : Type := world nat nat Z Z.

(** A controller that has not searched yet. *)
Definition fresh (rolls pvs : Z) : TWorld := mkWorld (mkModel rolls pvs None) [].

(** A controller holding the given root. *)
Definition holding (rolls pvs : Z) (r : TNode) : TWorld :=
  mkWorld (mkModel rolls pvs (Some r)) [].

Definition leaf (b : nat) (pb : nat) (m : nat) (visits : Z) : TNode :=
  mkNode b (Some pb) (Some m) visits 0 0 [].

(** A root at position 40 with 100 visits whose three children hold
    50, 30 and 20 of them. *)
Definition root_50_30_20 : TNode :=
  mkNode 40%nat None None 100 0 0
    [leaf 39 40 0 50; leaf 38 40 1 30; leaf 37 40 2 20].

(** The root a world holds (a fresh node at position 0 if it holds none). *)
Definition root_of (w : TWorld) : TNode :=
  match node (self w) with
  | Some r => r
  | None => new_node 0%nat
  end.

(** The world one search round leaves behind. *)
Definition after_round (b : nat) (debug : bool) (w : TWorld) : TWorld :=
  snd (search_round b debug w).

(** Position 10 searched eleven times: the forced line of ten moves down
    to position 0 is fully expanded. *)
Definition forced_line : TNode := Nat.iter 11 toy_rollout (new_node 10%nat).
End Toy.

(** ** The functions around the controller

    [print_unicode_board], [get_user_color], [get_user_move], [self_play] and
    [play].  They read the keyboard, draw random examples and sleep, so their
    state is the controller's world together with the lines still to be read
    by [input], the draws [random.choice] is going to make, and the naps
    taken.  A Python [str] is a [string]; [str(board)] is ASCII. *)

(** Exceptions that can leave these functions: those of the controller and
    of the built-ins it shares with them, and two more. *)
Inductive game_exn : Set :=
| Builtin (e : exn)
| KeyError
| EOFError.

Inductive ending (A : Type) : Type :=
| Done (a : A)
| Failed (e : game_exn)
| Unfinished.
Arguments Done {A} a.
Arguments Failed {A} e.
Arguments Unfinished {A}.

Definition is_done {A} (o : ending A) : bool :=
  match o with Done _ => true | _ => false end.

(** *** Strings *)

(** [s[::-1]] *)
Fixpoint rev_string (s : string) : string :=
  match s with
  | EmptyString => EmptyString
  | String x s' => (rev_string s' ++ String x EmptyString)%string
  end.

(** [s.split(c)] for a one-character separator. *)
Fixpoint split_on (c : ascii) (s : string) : list string :=
  match s with
  | EmptyString => [EmptyString]
  | String x s' =>
      if Ascii.eqb x c then EmptyString :: split_on c s'
      else match split_on c s' with
           | [] => [String x EmptyString]
           | l :: ls => String x l :: ls
           end
  end.

Definition newline : ascii := ascii_of_nat 10.

(** [enumerate(l)], counting from [i]. *)
Fixpoint enumerate_from {A} (i : Z) (l : list A) : list (Z * A) :=
  match l with
  | [] => []
  | x :: l' => (i, x) :: enumerate_from (i + 1) l'
  end.

(** *** print_unicode_board *)

(** The dict [uni_pieces], in source order. *)
Definition uni_pieces : list (ascii * string) :=
  [ ("r"%char, "♜"%string); ("n"%char, "♞"%string); ("b"%char, "♝"%string);
    ("q"%char, "♛"%string); ("k"%char, "♚"%string); ("p"%char, "♟"%string);
    ("R"%char, "♖"%string); ("N"%char, "♘"%string); ("B"%char, "♗"%string);
    ("Q"%char, "♕"%string); ("K"%char, "♔"%string); ("P"%char, "♙"%string);
    ("."%char, " "%string); (" "%char, " "%string); (newline, nl) ].

(** [d[k]]: a missing key raises [KeyError]. *)
Fixpoint dict_get (d : list (ascii * string)) (k : ascii) : ending string :=
  match d with
  | [] => Failed KeyError
  | (k', v) :: d' => if Ascii.eqb k' k then Done v else dict_get d' k
  end.

Definition light_bg : string := (esc ++ "[0;30;107m")%string.
Definition dark_bg : string := (esc ++ "[0;30;47m")%string.
Definition end_colour : string := (esc ++ "[0m")%string.

(** [(i//2 + i//16) % 2] *)
Definition shade (i : Z) : Z := (i / 2 + i / 16) mod 2.

(** One pass of the body of the loop of lines 49-51 over [colored]. *)
Definition paint (i : Z) (p : ascii) (colored : list string) : ending (list string) :=
  match
    (if shade i =? 0 then
       match dict_get uni_pieces p with
       | Done g => Done (colored ++ [(light_bg ++ g)%string])
       | Failed e => Failed e
       | Unfinished => Unfinished
       end
     else Done colored)
  with
  | Done colored1 =>
      if shade i =? 1 then
        match dict_get uni_pieces p with
        | Done g => Done (colored1 ++ [(dark_bg ++ g)%string])
        | Failed e => Failed e
        | Unfinished => Unfinished
        end
      else Done colored1
  | Failed e => Failed e
  | Unfinished => Unfinished
  end.

Fixpoint paint_all (cells : list (Z * ascii)) (colored : list string)
  : ending (list string) :=
  match cells with
  | [] => Done colored
  | (i, p) :: cells' =>
      match paint i p colored with
      | Done colored' => paint_all cells' colored'
      | Failed e => Failed e
      | Unfinished => Unfinished
      end
  end.

(** Line 47: the board string seen from the other side. *)
Definition flip_board (board_str : string) : string :=
  join nl (map rev_string (rev (split_on newline board_str))).

(** Lines 55 and 58: one rank of the board with its label. *)
Definition rank_line (white : bool) (i : Z) (line : string) : string :=
  (" " ++ light_bg ++ " " ++ py_str (if white then 8 - i else 1 + i) ++ " "
   ++ line ++ " " ++ light_bg ++ " " ++ end_colour)%string.

Definition files_line (white : bool) : string :=
  (" " ++ light_bg
   ++ (if white then "   a b c d e f g h  " else "   h g f e d c b a  ")
   ++ end_colour ++ nl)%string.

(** The two texts written after the blank line, for a board string. *)
Definition board_picture (board_str : string) (white : bool)
  : ending (string * string) :=
  let board_str := if white then board_str else flip_board board_str in
  match paint_all (enumerate_from 0 (list_ascii_of_string board_str)) [] with
  | Done colored =>
      let lines := split_on newline (join EmptyString colored) in
      Done ((join nl (map (fun il => rank_line white (fst il) (snd il))
                          (enumerate_from 0 lines)) ++ nl)%string,
            (files_line white ++ nl)%string)
  | Failed e => Failed e
  | Unfinished => Unfinished
  end.

(** *** The rules engine, and the session *)

(** What these functions consume from [chess]. *)
Class Rules (Board Move : Type) : Type := {
  starting_board : Board;                       (* chess.Board() *)
  is_game_over : Board -> bool;
  result : Board -> string;
  turn : Board -> bool;                         (* chess.WHITE is True *)
  push : Board -> option Move -> Board;         (* the board after board.push *)
  board_str : Board -> string;                  (* str(board) *)
  legal_moves : Board -> list Move;
  move_eqb : Move -> Move -> bool;
  uci : Move -> string;
  parse_san : Board -> string -> option Move;   (* None: ValueError *)
  from_uci : string -> option Move              (* None: ValueError *)
}.

Section Session.
Context {Board Move Prior Value Nap : Type}.

#[local] Abbreviation world := (world Board Move Prior Value).

Record session : Type := mkSession {
  ctl : world;             (* the controller and all that was written *)
  stdin : list string;     (* the lines [input] has still to read *)
  dice : nat -> nat;       (* the draws of [random] *)
  thrown : nat;            (* how many were used *)
  naps : list Nap          (* the arguments of [time.sleep], oldest first *)
}.

Definition GM (A : Type) : Type := session -> ending A * session.

Definition gret {A} (a : A) : GM A := fun s => (Done a, s).
Definition gfail {A} (e : game_exn) : GM A := fun s => (Failed e, s).
Definition gstall {A} : GM A := fun s => (Unfinished, s).
Definition gbind {A B} (m : GM A) (k : A -> GM B) : GM B :=
  fun s =>
    match m s with
    | (Done a, s') => k a s'
    | (Failed e, s') => (Failed e, s')
    | (Unfinished, s') => (Unfinished, s')
    end.

(** A method of the controller, called from the game. *)
Definition call {A} (m : M Board Move Prior Value A) : GM A :=
  fun s =>
    let s' w := mkSession w (stdin s) (dice s) (thrown s) (naps s) in
    match m (ctl s) with
    | (Ret a, w) => (Done a, s' w)
    | (Raise e, w) => (Failed (Builtin e), s' w)
    | (OutOfFuel, w) => (Unfinished, s' w)
    end.

(** [print(text, end='')] *)
Definition write (text : string) : GM unit := call (print text).

(** [input(prompt)] *)
Definition input (prompt : string) : GM string :=
  gbind (write prompt) (fun _ s =>
    match stdin s with
    | [] => (Failed EOFError, s)
    | line :: rest =>
        (Done line, mkSession (ctl s) rest (dice s) (thrown s) (naps s))
    end).

(** [random.choice(seq)] *)
Definition choice {A} (seq : list A) : GM A :=
  fun s =>
    match seq with
    | [] => (Failed (Builtin IndexError), s)
    | x :: _ =>
        (Done (nth (dice s (thrown s) mod List.length seq) seq x),
         mkSession (ctl s) (stdin s) (dice s) (S (thrown s)) (naps s))
    end.

(** [time.sleep(t)] *)
Definition sleep (t : Nap) : GM unit :=
  fun s => (Done tt, mkSession (ctl s) (stdin s) (dice s) (thrown s) (naps s ++ [t])).
End Session.

Arguments session : clear implicits.
Arguments GM : clear implicits.

Notation "x <~ m ;; k" := (gbind m (fun x => k))
  (at level 61, m at next level, right associativity).
Notation "m ;~ k" := (gbind m (fun _ => k))
  (at level 61, right associativity).

Section Game.
Context {Board Move Prior Value Nap : Type}
        {E : Engine Board Move Prior Value} {R : Rules Board Move}.

#[local] Abbreviation GM := (GM Board Move Prior Value Nap).
#[local] Abbreviation session := (session Board Move Prior Value Nap).

(** Lines 38-59. *)
Definition print_unicode_board (b : Board) (perspective : bool) : GM unit :=
  write nl ;~
  match board_picture (board_str b) perspective with
  | Done (ranks, files) => write ranks ;~ write files
  | Failed e => gfail e
  | Unfinished => gstall
  end.

(** Lines 31-35.  Every turn of the loop reads a line, so the number of
    lines left bounds the turns. *)
Fixpoint ask_colour (turns : nat) (color : string) : GM bool :=
  if String.eqb color "white" || String.eqb color "black" then
    gret (String.eqb color "white")
  else
    match turns with
    | O => gstall
    | S turns' =>
        color' <~ input "Do you want to be white or black? " ;;
        ask_colour turns' color'
    end.

Definition get_user_color : GM bool :=
  fun s => ask_colour (S (List.length (stdin s))) EmptyString s.

(** Lines 17-21: both parsers are tried, in this order, and the last one to
    succeed decides. *)
Definition read_move (b : Board) (text : string) : option Move :=
  let move := None in
  let move := match parse_san b text with Some m => Some m | None => move end in
  let move := match from_uci text with Some m => Some m | None => move end in
  move.

(** Lines 13-21. *)
Fixpoint ask_move (turns : nat) (b : Board) : GM Move :=
  match turns with
  | O => gstall
  | S turns' =>
      san_option <~ choice (map (fun m => san b (Some m)) (legal_moves b)) ;;
      uci_option <~ choice (map uci (legal_moves b)) ;;
      text <~ input ("Your move (e.g. " ++ san_option ++ " or " ++ uci_option ++ "): ") ;;
      match read_move b text with
      | Some m => gret m
      | None => ask_move turns' b
      end
  end.

(** Lines 10-28. *)
Fixpoint get_user_move_within (calls : nat) (b : Board) : GM Move :=
  match calls with
  | O => gstall
  | S calls' =>
      m <~ (fun s => ask_move (S (List.length (stdin s))) b s) ;;
      if negb (existsb (move_eqb m) (legal_moves b)) then
        write ("Illegal move." ++ nl) ;~
        get_user_move_within calls' b
      else gret m
  end.

Definition get_user_move (b : Board) : GM Move :=
  fun s => get_user_move_within (S (List.length (stdin s))) b s.

(** Lines 66-70: the loop of [self_play], for at most [plies] moves, each
    searched with recursion budget [depth]; it ends on the board as the
    pushes have left it. *)
Fixpoint self_play_loop (plies depth : nat) (rand debug : bool) (b : Board)
  : GM Board :=
  if is_game_over b then gret b
  else
    match plies with
    | O => gstall
    | S plies' =>
        print_unicode_board b true ;~
        m <~ call (find_move depth b debug rand) ;;
        write (" My move: " ++ san b m ++ nl) ;~
        self_play_loop plies' depth rand debug (push b m)
    end.

(** Lines 62-74. *)
Definition self_play (plies depth : nat) (rand debug : bool) (board : option Board)
  : GM Board :=
  let b := match board with Some b => b | None => starting_board end in
  b' <~ self_play_loop plies depth rand debug b ;;
  print_unicode_board b' true ;~
  write ("Result: " ++ result b' ++ nl) ;~
  gret b'.

(** Lines 82-90. *)
Fixpoint play_loop (plies depth : nat) (rand debug : bool) (nap : Nap)
         (user_color : bool) (b : Board) : GM Board :=
  if is_game_over b then gret b
  else
    match plies with
    | O => gstall
    | S plies' =>
        print_unicode_board b user_color ;~
        m <~ (if Bool.eqb user_color (turn b) then
                m <~ get_user_move b ;; gret (Some m)
              else
                sleep nap ;~
                m <~ call (find_move depth b debug rand) ;;
                write (" My move: " ++ san b m ++ nl) ;~
                gret m) ;;
        play_loop plies' depth rand debug nap user_color (push b m)
    end.

(** Lines 77-94. *)
Definition play (plies depth : nat) (rand debug : bool) (nap : Nap)
           (board : option Board) : GM Board :=
  user_color <~ get_user_color ;;
  let b := match board with Some b => b | None => starting_board end in
  b' <~ play_loop plies depth rand debug nap user_color b ;;
  print_unicode_board b' user_color ;~
  write ("Result: " ++ result b' ++ nl) ;~
  gret b'.
End Game.

(** ** A small concrete rules engine, for examples *)

Module ToyGame.
(** [str(chess.Board())] *)
Definition start_str : string :=
  ("r n b q k b n r" ++ nl ++ "p p p p p p p p" ++ nl ++
   ". . . . . . . ." ++ nl ++ ". . . . . . . ." ++ nl ++
   ". . . . . . . ." ++ nl ++ ". . . . . . . ." ++ nl ++
   "P P P P P P P P" ++ nl ++ "R N B Q K B N R")%string.

Definition toy_uci (m : nat) : string := ("u" ++ py_str (Z.of_nat m))%string.

Definition toy_from_uci (text : string) : option nat :=
  find (fun m => String.eqb (toy_uci m) text) [0; 1; 2; 3]%nat.

Definition toy_parse_san (b : nat) (text : string) : option nat :=
  find (fun m => String.eqb (Toy.toy_san b (Some m)) text) (Toy.legal_moves b).

Definition toy_push (b : nat) (m : option nat) : nat :=
  match m with
  | Some k => Toy.push b k
  | None => b
  end.

#[export] Instance rules : Rules nat nat := {
  starting_board := 40%nat;
  is_game_over := fun b => (b =? 0)%nat;
  result := fun b => if Nat.even b then "1/2-1/2"%string else "*"%string;
  turn := Nat.even;
  push := toy_push;
  board_str := fun b => if (b =? 99)%nat then "r n ?"%string else start_str;
  legal_moves := Toy.legal_moves;
  move_eqb := Nat.eqb;
  uci := toy_uci;
  parse_san := toy_parse_san;
  from_uci := toy_from_uci
}.

Definition TSession : Type := session nat nat Z Z nat.

(** A session around the controller world [w], with the given keyboard
    input; every random draw is 0. *)
Definition sitting (w : Toy.TWorld) (lines : list string) : TSession :=
  mkSession w lines (fun _ => O) O [].


End ToyGame.

(** ** Vocabulary for the further statements *)

Section FurtherVocabulary.
Context {Board Move Prior Value : Type}.

#[local] Abbreviation M := (M Board Move Prior Value).

(** A computation that never touches the configured budgets, never drops
    the root once there is one, and only ever appends to the trace. *)
Definition steady {A} (m : M A) : Prop :=
  forall w,
    rolls (self (snd (m w))) = rolls (self w) /\
    pvs (self (snd (m w))) = pvs (self w) /\
    (node (self w) <> None -> node (self (snd (m w))) <> None) /\
    exists out, trace (snd (m w)) = trace w ++ out.
End FurtherVocabulary.

Section GameVocabulary.
Context {Board Move Prior Value Nap : Type}.

#[local] Abbreviation GM := (GM Board Move Prior Value Nap).
#[local] Abbreviation session := (session Board Move Prior Value Nap).

(** The session after the given texts have been written. *)
Definition wrote (texts : list string) (s : session) : session :=
  mkSession (say (map Print texts) (ctl s)) (stdin s) (dice s) (thrown s) (naps s).

(** The session after the keyboard input has been read down to [rest]. *)
Definition read_to (rest : list string) (s : session) : session :=
  mkSession (ctl s) rest (dice s) (thrown s) (naps s).

(** A computation that reads no keyboard input, draws nothing and does not
    sleep. *)
Definition offline {A} (m : GM A) : Prop :=
  forall s,
    stdin (snd (m s)) = stdin s /\
    thrown (snd (m s)) = thrown s /\
    naps (snd (m s)) = naps s.

(** A computation that leaves the controller object alone and calls the
    engine not at all. *)
Definition hands_off {A} (m : GM A) : Prop :=
  forall s, exists out,
    ctl (snd (m s)) = say out (ctl s) /\ rollouts out = O.

(** A computation that sleeps at most [n] times, each time for [nap]. *)
Definition dozes {A} (nap : Nap) (n : nat) (m : GM A) : Prop :=
  forall s, exists k,
    (k <= n)%nat /\ naps (snd (m s)) = naps s ++ repeat nap k.

(** A character that [uni_pieces] has a glyph for. *)
Definition has_glyph (p : ascii) : Prop :=
  exists g, dict_get uni_pieces p = Done g.
End GameVocabulary.

(** * Properties of the controller *)

(** ** Built-ins *)

Lemma rollouts_app (t u : list event) :
  rollouts (t ++ u) = (rollouts t + rollouts u)%nat.
Proof.
  unfold rollouts. rewrite filter_app, length_app. reflexivity.
Qed.

(** [max(..., key=...)] returns the first element with the largest key:
    everything in front of it is strictly smaller, nothing behind it is
    larger. *)
Lemma max_from_first {A} (key : A -> Z) (l : list A) :
  forall best,
    exists l1 l2,
      best :: l = l1 ++ max_from key best l :: l2 /\
      Forall (fun x => key x < key (max_from key best l)) l1 /\
      Forall (fun x => key x <= key (max_from key best l)) l2.
Proof.
  induction l as [|x l IH]; intros best; simpl.
  - exists [], []. repeat split; constructor.
  - destruct (Z.ltb_spec (key best) (key x)) as [Hlt|Hge].
    + destruct (IH x) as (l1 & l2 & Heq & H1 & H2).
      exists (best :: l1), l2. repeat split.
      * simpl. rewrite <- Heq. reflexivity.
      * constructor; [|exact H1].
        assert (Hx : key x <= key (max_from key x l)).
        { destruct l1 as [|y l1'].
          - injection Heq as Hx _. rewrite <- Hx. lia.
          - injection Heq as Hx _. subst y.
            apply Forall_inv in H1. simpl in H1. lia. }
        lia.
      * exact H2.
    + destruct (IH best) as (l1 & l2 & Heq & H1 & H2).
      destruct l1 as [|y l1'].
      * injection Heq as Hb Hl.
        exists [], (x :: l2). repeat split.
        -- simpl. rewrite <- Hb, <- Hl. reflexivity.
        -- constructor.
        -- constructor; [rewrite <- Hb; lia | exact H2].
      * injection Heq as Hb Hl. subst y.
        exists (best :: x :: l1'), l2. repeat split.
        -- simpl. do 2 f_equal. exact Hl.
        -- pose proof (Forall_inv H1) as Hb. simpl in Hb.
           constructor; [exact Hb|].
           constructor; [lia | exact (Forall_inv_tail H1)].
        -- exact H2.
Qed.

Lemma max_from_In {A} (key : A -> Z) (l : list A) (best : A) :
  In (max_from key best l) (best :: l).
Proof.
  destruct (max_from_first key l best) as (l1 & l2 & Heq & _).
  rewrite Heq. apply in_elt.
Qed.

(** Line 120-121: the list is cut to ten entries and the marker added as
    soon as it holds ten entries or more; a shorter list is left alone. *)
Lemma clip_pv_spec (pv : list string) :
  clip_pv pv =
  if (List.length pv <? 10)%nat then pv else firstn 10 pv ++ ["..."%string].
Proof.
  unfold clip_pv.
  destruct (Z.leb_spec 10 (Z.of_nat (List.length pv)));
    destruct (Nat.ltb_spec (List.length pv) 10); try reflexivity; lia.
Qed.

Lemma clip_pv_moves_bound (pv : list string) :
  (List.length (firstn 10 pv) <= 10)%nat.
Proof. rewrite length_firstn. lia. Qed.

Lemma clip_pv_exactly_ten (pv : list string) :
  List.length pv = 10%nat -> clip_pv pv = pv ++ ["..."%string].
Proof.
  intros H. unfold clip_pv. rewrite H.
  change (10 <=? Z.of_nat 10) with true. cbv iota.
  f_equal. rewrite <- H. apply firstn_all.
Qed.

(** ** The monad *)

Section MonadFacts.
Context {Board Move Prior Value : Type} {E : Engine Board Move Prior Value}.

#[local] Abbreviation Node := (Node Board Move Prior Value).
#[local] Abbreviation M := (M Board Move Prior Value).
#[local] Abbreviation world := (world Board Move Prior Value).

Lemma world_eta (w : world) : mkWorld (self w) (trace w) = w.
Proof. destruct w; reflexivity. Qed.

Lemma say_nil (w : world) : say [] w = w.
Proof. unfold say. rewrite app_nil_r. apply world_eta. Qed.

Lemma say_say (o1 o2 : list event) (w : world) :
  say o2 (say o1 w) = say (o1 ++ o2) w.
Proof. unfold say; simpl. rewrite app_assoc. reflexivity. Qed.

Lemma bind_ret_inv {A B} (m : M A) (k : A -> M B) w b w' :
  bind m k w = (Ret b, w') ->
  exists a w1, m w = (Ret a, w1) /\ k a w1 = (Ret b, w').
Proof.
  unfold bind. destruct (m w) as [[a|e|] w1]; intros H; try discriminate.
  exists a, w1. split; [reflexivity | exact H].
Qed.

Lemma bind_ret_run {A B} (m : M A) (k : A -> M B) w a w1 :
  m w = (Ret a, w1) -> bind m k w = k a w1.
Proof. unfold bind. intros ->. reflexivity. Qed.

(** *** Quiet computations *)

Lemma quiet_ret {A} (a : A) : quiet (ret a : M A).
Proof. intros w. exists []. simpl. rewrite say_nil. split; reflexivity. Qed.

Lemma quiet_lift {A} (o : outcome A) : quiet (lift o : M A).
Proof. intros w. exists []. simpl. rewrite say_nil. split; reflexivity. Qed.

Lemma quiet_get_self : quiet (get_self : M _).
Proof. intros w. exists []. simpl. rewrite say_nil. split; reflexivity. Qed.

Lemma quiet_the_node : quiet (the_node : M _).
Proof.
  intros w. exists []. unfold the_node.
  destruct (node (self w)); simpl; rewrite say_nil; split; reflexivity.
Qed.

Lemma quiet_print (s : string) : quiet (print s : M _).
Proof. intros w. exists [Print s]. split; reflexivity. Qed.

Lemma quiet_bind {A B} (m : M A) (k : A -> M B) :
  quiet m -> (forall a, quiet (k a)) -> quiet (bind m k).
Proof.
  intros Hm Hk w. destruct (Hm w) as (o1 & E1 & R1).
  unfold bind. destruct (m w) as [[a|e|] w1]; simpl in E1; subst w1.
  - destruct (Hk a (say o1 w)) as (o2 & E2 & R2).
    exists (o1 ++ o2). rewrite E2, say_say, rollouts_app, R1, R2.
    split; reflexivity.
  - exists o1. split; [reflexivity | exact R1].
  - exists o1. split; [reflexivity | exact R1].
Qed.

Lemma quiet_for_from (body : Z -> M unit) (n : nat) :
  (forall i, quiet (body i)) -> forall i, quiet (for_from i n body).
Proof.
  intros Hb. induction n as [|n IH]; intros i; simpl.
  - apply quiet_ret.
  - apply quiet_bind; [apply Hb | intros _; apply IH].
Qed.

Lemma quiet_print_pvs : quiet print_pvs.
Proof.
  unfold print_pvs.
  apply quiet_bind; [apply quiet_the_node | intros root].
  apply quiet_bind; [apply quiet_get_self | intros s].
  apply quiet_bind.
  - unfold for_range. apply quiet_for_from. intros i.
    apply quiet_bind; [apply quiet_lift | intros pv; apply quiet_print].
  - intros _. apply quiet_bind; [apply quiet_print | intros _; apply quiet_print].
Qed.

(** *** Computations that end *)

Lemma settles_bind {A B} (m : M A) (k : A -> M B) :
  settles m -> (forall a, settles (k a)) -> settles (bind m k).
Proof.
  intros Hm Hk w. unfold bind. specialize (Hm w).
  destruct (m w) as [[a|e|] w1]; simpl in *.
  - apply Hk.
  - discriminate.
  - contradiction.
Qed.

Lemma settles_for_from (body : Z -> M unit) (n : nat) :
  (forall i, settles (body i)) -> forall i, settles (for_from i n body).
Proof.
  intros Hb. induction n as [|n IH]; intros i; simpl.
  - intros w. discriminate.
  - apply settles_bind; [apply Hb | intros _; apply IH].
Qed.

Lemma settles_print (s : string) : settles (print s : M _).
Proof. intros w. discriminate. Qed.
End MonadFacts.

(** ** The principal-variation walk terminates *)

Section PvFacts.
Context {Board Move Prior Value : Type} {E : Engine Board Move Prior Value}.

#[local] Abbreviation Node := (Node Board Move Prior Value).

Lemma fold_max_bound {A} (f : A -> nat) (l : list A) (x : A) :
  In x l -> (f x <= fold_right Nat.max O (map f l))%nat.
Proof.
  induction l as [|y l IH]; simpl; intros Hin; [contradiction|].
  destruct Hin as [->|Hin]; [lia|]. specialize (IH Hin). lia.
Qed.

Lemma height_child (nd c : Node) :
  In c (children nd) -> (height c < height nd)%nat.
Proof.
  destruct nd as [bd pb mv n q p cs]. cbn [children]. intros Hin.
  destruct cs as [|c0 cs]; [contradiction|].
  change (height (mkNode bd pb mv n q p (c0 :: cs)))
    with (S (fold_right Nat.max O (map height (c0 :: cs)))).
  pose proof (fold_max_bound height (c0 :: cs) c Hin). lia.
Qed.

(** The [while node.children] loop of [print_pvs] ends: the height of the
    node is enough budget for the walk below it. *)
Lemma pv_descend_terminates (fuel : nat) :
  forall (nd : Node) (pv : list string),
    (height nd <= fuel)%nat -> pv_descend fuel nd pv <> OutOfFuel.
Proof.
  induction fuel as [|fuel IH]; intros nd pv Hh.
  - destruct nd as [bd pb mv n q p [|c cs]]; simpl; [discriminate|].
    pose proof (height_child (mkNode bd pb mv n q p (c :: cs)) c
                  (or_introl eq_refl)). lia.
  - destruct nd as [bd pb mv n q p [|c cs]]; simpl; [discriminate|].
    destruct (parent_board (max_from N c cs)); [|discriminate].
    apply IH.
    pose proof (height_child (mkNode bd pb mv n q p (c :: cs))
                  (max_from N c cs) (max_from_In N cs c)). lia.
Qed.

Lemma pv_moves_terminates (root : Node) (i : Z) :
  pv_moves root i <> OutOfFuel.
Proof.
  unfold pv_moves. destruct (children root); [discriminate|].
  destruct (nth_error _ _) as [nd|]; [|discriminate].
  destruct (parent_board nd); [|discriminate].
  destruct (N root =? 0); [discriminate|].
  apply pv_descend_terminates. lia.
Qed.

(** [print_pvs] always ends: it returns or raises. *)
Lemma print_pvs_settles : settles print_pvs.
Proof.
  unfold print_pvs.
  apply settles_bind.
  { intros w. unfold the_node. destruct (node (self w)); discriminate. }
  intros root. apply settles_bind; [intros w; discriminate|]. intros s.
  apply settles_bind.
  - unfold for_range. apply settles_for_from. intros i.
    apply settles_bind; [|intros pv; apply settles_print].
    intros w. apply pv_moves_terminates.
  - intros _. apply settles_bind; [apply settles_print|].
    intros _. apply settles_print.
Qed.
End PvFacts.

(** ** One search round *)

Section RoundFacts.
Context {Board Move Prior Value : Type} {E : Engine Board Move Prior Value}.

#[local] Abbreviation Node := (Node Board Move Prior Value).
#[local] Abbreviation M := (M Board Move Prior Value).
#[local] Abbreviation world := (world Board Move Prior Value).

Lemma do_rollout_run (w : world) (r : Node) :
  node (self w) = Some r ->
  do_rollout w = (Ret tt, with_node (rollout r) (say [Rollout] w)).
Proof.
  intros Hr. unfold do_rollout, bind, the_node. rewrite Hr. reflexivity.
Qed.

(** Lines 128-139 never fail; they end on the reused root when there is
    one and on a fresh node otherwise. *)
Lemma acquire_root_run (b : Board) (debug : bool) (w : world) :
  acquire_root b debug w =
  (Ret tt,
   match reused_root b (node (self w)) with
   | Some n => with_node n w
   | None =>
       say (if debug then [Print creating_notice] else [])
           (with_node (new_node b) w)
   end).
Proof.
  destruct w as [[rl pv nd] tr].
  unfold acquire_root, reuse_lookup, make_new_node, reused_root, bind,
    get_self, with_node, say; simpl.
  destruct nd as [r|]; simpl.
  - destruct (find (fun n => board_eqb (board n) b) (children r)) as [n|] eqn:Hf;
      simpl.
    + apply find_some in Hf. destruct Hf as [_ Hn]. rewrite Hn. simpl.
      reflexivity.
    + destruct (board_eqb (board r) b); simpl.
      * reflexivity.
      * destruct debug; simpl; [reflexivity | rewrite app_nil_r; reflexivity].
  - destruct debug; simpl; [reflexivity | rewrite app_nil_r; reflexivity].
Qed.

Lemma acquire_root_some (b : Board) (debug : bool) (w : world) :
  exists r0 out,
    acquire_root b debug w = (Ret tt, say out (with_node r0 w)) /\
    rollouts out = O.
Proof.
  rewrite acquire_root_run.
  destruct (reused_root b (node (self w))) as [n|].
  - exists n, []. rewrite say_nil. split; reflexivity.
  - exists (new_node b), (if debug then [Print creating_notice] else []).
    split; [reflexivity | destruct debug; reflexivity].
Qed.

(** Lines 142-145 on a controller that holds a root. *)
Lemma print_priors_run (b : Board) (w : world) (r : Node) :
  node (self w) = Some r ->
  print_priors b w =
  (Ret tt,
   if pvs (self w) =? 0 then w
   else say [Rollout; Print (priors_line b (rollout r))]
            (with_node (rollout r) w)).
Proof.
  intros Hr. unfold print_priors, bind, get_self.
  destruct (pvs (self w) =? 0); [reflexivity|].
  rewrite (do_rollout_run w r Hr).
  unfold the_node, print, emit, with_node, say; simpl.
  rewrite <- app_assoc. reflexivity.
Qed.

Lemma restate (o1 o2 : list event) (n1 n2 : Node) (w : world) :
  say o2 (with_node n2 (say o1 (with_node n1 w))) = say (o1 ++ o2) (with_node n2 w).
Proof. unfold say, with_node; simpl. rewrite app_assoc. reflexivity. Qed.

Lemma with_node_same (w : world) (r : Node) :
  node (self w) = Some r -> with_node r w = w.
Proof.
  destruct w as [[rl pv nd] tr]; simpl. intros ->. reflexivity.
Qed.

(** The budget loop, when it runs to its end, has applied the engine once
    per iteration to the root it started from, and done nothing else to
    the controller. *)
Lemma for_from_rollouts (c : Z -> bool) (n : nat) :
  forall (i : Z) (w w' : world) (r : Node),
    for_from i n (fun i => do_rollout ;; if c i then print_pvs else ret tt) w
    = (Ret tt, w') ->
    node (self w) = Some r ->
    exists out,
      w' = say out (with_node (Nat.iter n rollout r) w) /\
      rollouts out = n.
Proof.
  induction n as [|n IH]; intros i w w' r Hrun Hr.
  - injection Hrun as <-. exists []. simpl.
    rewrite (with_node_same _ _ Hr), say_nil. split; reflexivity.
  - cbn [for_from] in Hrun.
    apply bind_ret_inv in Hrun. destruct Hrun as ([] & w1 & Hbody & Hrest).
    apply bind_ret_inv in Hbody. destruct Hbody as ([] & wa & Hroll & Hpv).
    rewrite (do_rollout_run w r Hr) in Hroll. injection Hroll as <-.
    assert (Hq : exists out, w1 = say out (with_node (rollout r) (say [Rollout] w))
                             /\ rollouts out = O).
    { destruct (c i).
      - destruct (quiet_print_pvs (with_node (rollout r) (say [Rollout] w)))
          as (out & Hs & Ho).
        rewrite Hpv in Hs. exists out. split; assumption.
      - injection Hpv as <-. exists []. rewrite say_nil. split; reflexivity. }
    destruct Hq as (out & -> & Ho).
    destruct (IH _ _ _ (rollout r) Hrest eq_refl) as (out' & -> & Ho').
    exists (([Rollout] ++ out) ++ out'). split.
    + rewrite Nat.iter_succ_r. unfold say, with_node; simpl.
      rewrite <- !app_assoc. reflexivity.
    + rewrite !rollouts_app, Ho, Ho'. reflexivity.
Qed.

Lemma iteration_loop_rollouts (w w' : world) (r : Node) :
  iteration_loop w = (Ret tt, w') ->
  node (self w) = Some r ->
  exists out,
    w' = say out (with_node (Nat.iter (Z.to_nat (rolls (self w))) rollout r) w) /\
    rollouts out = Z.to_nat (rolls (self w)).
Proof.
  intros Hrun Hr.
  apply (for_from_rollouts
           (fun i => negb (pvs (self w) =? 0)
                     && ((i mod 100 =? 0) || (i =? rolls (self w) - 1)))
           (Z.to_nat (rolls (self w))) 0 w w' r); [exact Hrun | exact Hr].
Qed.

(** Without diagnostics the loop cannot fail. *)
Lemma for_from_plain (s : MCTS_Model Board Move Prior Value) (n : nat) :
  pvs s = 0 ->
  forall (i : Z) (w : world) (r : Node),
    node (self w) = Some r ->
    for_from i n (fun i =>
      do_rollout ;;
      if negb (pvs s =? 0) && ((i mod 100 =? 0) || (i =? rolls s - 1))
      then print_pvs else ret tt) w
    = (Ret tt, with_node (Nat.iter n rollout r) (say (repeat Rollout n) w)).
Proof.
  intros Hp. induction n as [|n IH]; intros i w r Hr; simpl.
  - destruct w as [[rl pv nd] tr]. simpl in Hr. subst nd.
    unfold ret, with_node, say. simpl. rewrite app_nil_r. reflexivity.
  - set (wa := with_node (rollout r) (say [Rollout] w)).
    assert (Hbody :
      (do_rollout ;;
       if negb (pvs s =? 0) && ((i mod 100 =? 0) || (i =? rolls s - 1))
       then print_pvs else ret tt) w = (Ret tt, wa)).
    { unfold bind. rewrite (do_rollout_run w r Hr), Hp. reflexivity. }
    rewrite (bind_ret_run _ _ _ _ _ Hbody).
    rewrite (IH (i + 1) wa (rollout r) eq_refl).
    rewrite <- Nat.iter_succ_r. unfold wa, with_node, say; simpl.
    rewrite <- app_assoc. reflexivity.
Qed.

Lemma iteration_loop_plain (w : world) (r : Node) :
  pvs (self w) = 0 ->
  node (self w) = Some r ->
  iteration_loop w =
  (Ret tt, with_node (Nat.iter (Z.to_nat (rolls (self w))) rollout r)
                     (say (repeat Rollout (Z.to_nat (rolls (self w)))) w)).
Proof.
  intros Hp Hr.
  exact (for_from_plain (self w) (Z.to_nat (rolls (self w))) Hp 0 w r Hr).
Qed.

Lemma clean_up_run (w : world) :
  clean_up w =
  (Ret tt, if pvs (self w) =? 0 then w
           else say [Print (py_repeat nl (Z.to_nat (pvs (self w))))] w).
Proof.
  unfold clean_up, bind, get_self. destruct (pvs (self w) =? 0); reflexivity.
Qed.

(** What a completed round has done: it started from the root settled by
    lines 128-139 and applied the engine [budget] times to it; with [pvs]
    set, the first of these calls and the priors line come before the
    budget loop. *)
Lemma search_round_inv (b : Board) (debug : bool) (w w' : world) :
  search_round b debug w = (Ret tt, w') ->
  exists r0 out0 out,
    acquire_root b debug w = (Ret tt, say out0 (with_node r0 w)) /\
    rollouts out0 = O /\
    w' = say (out0 ++ out) (with_node (Nat.iter (budget (self w)) rollout r0) w) /\
    rollouts out = budget (self w) /\
    (pvs (self w) <> 0 ->
     exists rest,
       out = Rollout :: Print (priors_line b (rollout r0)) :: rest /\
       rollouts rest = Z.to_nat (rolls (self w))).
Proof.
  intros Hrun. unfold search_round in Hrun.
  destruct (acquire_root_some b debug w) as (r0 & out0 & Hacq & Hout).
  exists r0, out0.
  rewrite (bind_ret_run _ _ _ _ _ Hacq) in Hrun.
  set (w0 := say out0 (with_node r0 w)) in *.
  assert (Hr0 : node (self w0) = Some r0) by reflexivity.
  rewrite (bind_ret_run _ _ _ _ _ (print_priors_run b w0 r0 Hr0)) in Hrun.
  apply bind_ret_inv in Hrun. destruct Hrun as ([] & w2 & Hloop & Hclean).
  rewrite clean_up_run in Hclean.
  unfold budget. change (pvs (self w0)) with (pvs (self w)) in Hloop.
  destruct (Z.eqb_spec (pvs (self w)) 0) as [Hp|Hp].
  - destruct (iteration_loop_rollouts _ _ r0 Hloop Hr0) as (out & -> & Ho).
    change (pvs (self (say out (with_node
              (Nat.iter (Z.to_nat (rolls (self w0))) rollout r0) w0))))
      with (pvs (self w)) in Hclean.
    rewrite Hp in Hclean. injection Hclean as <-.
    exists out. repeat split; try assumption.
    + rewrite Nat.add_0_r. unfold w0. rewrite restate. reflexivity.
    + rewrite Ho. simpl. lia.
    + intros Hne. contradiction.
  - destruct (iteration_loop_rollouts _ _ (rollout r0) Hloop eq_refl)
      as (out & -> & Ho).
    match type of Hclean with
    | (_, if ?c then _ else _) = _ =>
        change c with (pvs (self w) =? 0) in Hclean
    end.
    destruct (Z.eqb_spec (pvs (self w)) 0) as [Hp'|_]; [contradiction|].
    injection Hclean as <-.
    exists (Rollout :: Print (priors_line b (rollout r0))
            :: out ++ [Print (py_repeat nl (Z.to_nat (pvs (self w))))]).
    repeat split; try assumption.
    + rewrite Nat.add_1_r, <- Nat.iter_succ_r.
      unfold w0, say, with_node; simpl. rewrite <- !app_assoc. reflexivity.
    + change (Rollout :: Print (priors_line b (rollout r0))
              :: out ++ [Print (py_repeat nl (Z.to_nat (pvs (self w))))])
        with ([Rollout; Print (priors_line b (rollout r0))]
              ++ (out ++ [Print (py_repeat nl (Z.to_nat (pvs (self w))))])).
      rewrite !rollouts_app, Ho. simpl.
      change (rollouts [Rollout; Print (priors_line b (rollout r0))]) with 1%nat.
      change (rollouts [Print (py_repeat nl (Z.to_nat (pvs (self w))))]) with O.
      lia.
    + intros _.
      exists (out ++ [Print (py_repeat nl (Z.to_nat (pvs (self w))))]).
      split; [reflexivity|].
      rewrite rollouts_app, Ho. simpl. 
      change (rollouts [Print (py_repeat nl (Z.to_nat (pvs (self w))))]) with O.
      lia.
Qed.

(** Without diagnostics a round cannot fail. *)
Lemma search_round_plain (b : Board) (debug : bool) (w : world) :
  pvs (self w) = 0 ->
  exists r0 out0,
    acquire_root b debug w = (Ret tt, say out0 (with_node r0 w)) /\
    rollouts out0 = O /\
    search_round b debug w =
    (Ret tt, say (out0 ++ repeat Rollout (Z.to_nat (rolls (self w))))
                 (with_node (Nat.iter (Z.to_nat (rolls (self w))) rollout r0) w)).
Proof.
  intros Hp.
  destruct (acquire_root_some b debug w) as (r0 & out0 & Hacq & Hout).
  exists r0, out0. split; [exact Hacq|]. split; [exact Hout|].
  unfold search_round.
  rewrite (bind_ret_run _ _ _ _ _ Hacq).
  set (w0 := say out0 (with_node r0 w)).
  assert (Hr0 : node (self w0) = Some r0) by reflexivity.
  assert (Hp0 : pvs (self w0) = 0) by exact Hp.
  rewrite (bind_ret_run _ _ _ _ _ (print_priors_run b w0 r0 Hr0)).
  rewrite Hp0. simpl (if 0 =? 0 then _ else _).
  rewrite (bind_ret_run _ _ _ _ _ (iteration_loop_plain w0 r0 Hp0 Hr0)).
  rewrite clean_up_run.
  change (pvs (self (with_node _ (say _ w0)))) with (pvs (self w)).
  rewrite Hp. simpl (if 0 =? 0 then _ else _).
  unfold w0, say, with_node; simpl. rewrite <- !app_assoc. reflexivity.
Qed.
End RoundFacts.

(** ** The concentration test and the selection *)

Section SelectionFacts.
Context {Board Move Prior Value : Type} {E : Engine Board Move Prior Value}.

#[local] Abbreviation Node := (Node Board Move Prior Value).
#[local] Abbreviation M := (M Board Move Prior Value).
#[local] Abbreviation world := (world Board Move Prior Value).

Lemma py_max_map_N (c : Node) (cs : list Node) :
  py_max (map N (c :: cs)) = Ret (N (max_from N c cs)).
Proof.
  unfold py_max, py_max_by; simpl. f_equal.
  revert c. induction cs as [|x cs IH]; intros c; simpl.
  - reflexivity.
  - destruct (N c <? N x); apply IH.
Qed.

Lemma find_none_Forall (f : Node -> bool) (l : list Node) :
  Forall (fun x => f x = false) l -> find f l = None.
Proof.
  induction 1 as [|x l Hx _ IH]; simpl; [reflexivity|].
  rewrite Hx. exact IH.
Qed.

Lemma find_first (f : Node -> bool) (before after : list Node) (c : Node) :
  Forall (fun x => f x = false) before -> f c = true ->
  find f (before ++ c :: after) = Some c.
Proof.
  induction 1 as [|x l Hx _ IH]; simpl; intros Hc.
  - rewrite Hc. reflexivity.
  - rewrite Hx. apply IH, Hc.
Qed.

(** Line 155 reads the tree and changes nothing. *)
Lemma concentration_low_run (w : world) (r : Node) :
  node (self w) = Some r ->
  concentration_low w =
  (match py_max (map N (children r)) with
   | Ret top => py_div_below_fifth top (N r)
   | Raise e => Raise e
   | OutOfFuel => OutOfFuel
   end, w).
Proof.
  intros Hr. unfold concentration_low, bind, the_node, lift. rewrite Hr.
  destruct (py_max (map N (children r))); reflexivity.
Qed.

Lemma concentration_low_high (w : world) (r : Node) (top : Z) :
  node (self w) = Some r ->
  py_max (map N (children r)) = Ret top ->
  0 < N r -> N r <= 5 * top ->
  concentration_low w = (Ret false, w).
Proof.
  intros Hr Hmax Hpos Hge. rewrite (concentration_low_run w r Hr), Hmax.
  unfold py_div_below_fifth, below_fifth.
  destruct (Z.eqb_spec (N r) 0); [lia|].
  destruct (Z.ltb_spec 0 (N r)); [|lia].
  destruct (Z.ltb_spec (5 * top) (N r)); [lia | reflexivity].
Qed.

Lemma concentration_low_low (w : world) (r : Node) (top : Z) :
  node (self w) = Some r ->
  py_max (map N (children r)) = Ret top ->
  0 < N r -> 5 * top < N r ->
  concentration_low w = (Ret true, w).
Proof.
  intros Hr Hmax Hpos Hlt. rewrite (concentration_low_run w r Hr), Hmax.
  unfold py_div_below_fifth, below_fifth.
  destruct (Z.eqb_spec (N r) 0); [lia|].
  destruct (Z.ltb_spec 0 (N r)); [|lia].
  destruct (Z.ltb_spec (5 * top) (N r)); [reflexivity | lia].
Qed.

(** Lines 163-166. *)
Lemma pick_child_best (w : world) (r c : Node) (cs : list Node) :
  node (self w) = Some r ->
  children r = c :: cs ->
  pick_child false w =
  (Ret (move (max_from N c cs)), with_node (max_from N c cs) w).
Proof.
  intros Hr Hc. unfold pick_child, bind, the_node, lift. rewrite Hr, Hc.
  reflexivity.
Qed.

Lemma find_move_step (fuel : nat) (b : Board) (debug pick_random : bool)
      (w w1 : world) :
  search_round b debug w = (Ret tt, w1) ->
  find_move (S fuel) b debug pick_random w =
  match concentration_low w1 with
  | (Ret true, w2) => find_move fuel b debug pick_random (say [Print thinking_notice] w2)
  | (Ret false, w2) => pick_child pick_random w2
  | (Raise e, w2) => (Raise e, w2)
  | (OutOfFuel, w2) => (OutOfFuel, w2)
  end.
Proof.
  intros Hround. cbn [find_move]. rewrite (bind_ret_run _ _ _ _ _ Hround).
  unfold bind at 1. destruct (concentration_low w1) as [[[|]|e|] w2]; reflexivity.
Qed.

Lemma find_move_round_fails (fuel : nat) (b : Board) (debug pick_random : bool)
      (w w1 : world) (o : outcome unit) :
  search_round b debug w = (o, w1) -> is_ret o = false ->
  is_ret (fst (find_move (S fuel) b debug pick_random w)) = false.
Proof.
  intros Hround Ho. cbn [find_move]. unfold bind at 1. rewrite Hround.
  destruct o; [discriminate | reflexivity | reflexivity].
Qed.
End SelectionFacts.

(** ** find_move as a whole *)

Section FindMoveFacts.
Context {Board Move Prior Value : Type} {E : Engine Board Move Prior Value}.

#[local] Abbreviation Node := (Node Board Move Prior Value).
#[local] Abbreviation M := (M Board Move Prior Value).
#[local] Abbreviation world := (world Board Move Prior Value).

Lemma concentration_low_frame (w w' : world) (o : outcome bool) :
  concentration_low w = (o, w') -> w' = w.
Proof.
  unfold concentration_low, bind, the_node, lift.
  destruct (node (self w)) as [r|].
  - destruct (py_max (map N (children r))); intros H; now inversion H.
  - intros H; now inversion H.
Qed.

Lemma pick_child_ret_inv (pick_random : bool) (w w' : world) (m : option Move) :
  pick_child pick_random w = (Ret m, w') ->
  pick_random = false /\
  exists r c cs,
    node (self w) = Some r /\ children r = c :: cs /\
    w' = with_node (max_from N c cs) w /\ m = move (max_from N c cs).
Proof.
  destruct pick_random; [discriminate|]. intros H. split; [reflexivity|].
  unfold pick_child, bind, the_node, lift in H.
  destruct (node (self w)) as [r|] eqn:Hr; [|discriminate].
  destruct (children r) as [|c cs] eqn:Hc; [discriminate|].
  simpl in H. injection H as <- <-.
  exists r, c, cs. repeat split; assumption || reflexivity.
Qed.

(** Every result of [find_move] comes out of some round [k] of at most
    [fuel] rounds, each of which called the engine [budget] times; the
    returned move is the one stored in the node left as the root. *)
Lemma find_move_ret_inv (fuel : nat) :
  forall (b : Board) (debug pick_random : bool) (w w' : world) (m : option Move),
    find_move fuel b debug pick_random w = (Ret m, w') ->
    pick_random = false /\
    (exists c, node (self w') = Some c /\ move c = m) /\
    exists k, (1 <= k <= fuel)%nat /\
              rollouts (trace w') = (rollouts (trace w) + k * budget (self w))%nat.
Proof.
  induction fuel as [|fuel IH]; intros b debug pick_random w w' m Hrun.
  - discriminate.
  - destruct (search_round b debug w) as [o w1] eqn:Hround.
    destruct o as [[]|e|];
      try (pose proof (find_move_round_fails fuel b debug pick_random w w1 _
                         Hround eq_refl) as Hf;
           rewrite Hrun in Hf; discriminate).
    rewrite (find_move_step fuel b debug pick_random w w1 Hround) in Hrun.
    destruct (search_round_inv b debug w w1 Hround)
      as (r0 & out0 & out & _ & Hout0 & Hw1 & Hout & _).
    destruct (concentration_low w1) as [o w2] eqn:Hconc.
    pose proof (concentration_low_frame _ _ _ Hconc) as ->.
    assert (Ht1 : rollouts (trace w1) = (rollouts (trace w) + budget (self w))%nat).
    { rewrite Hw1. simpl. rewrite !rollouts_app, Hout0, Hout. lia. }
    assert (Hb1 : budget (self w1) = budget (self w)) by (rewrite Hw1; reflexivity).
    destruct o as [[|]|e|]; try discriminate.
    + destruct (IH _ _ _ _ _ _ Hrun) as (Hpr & Hc & k & Hk & Ht).
      split; [exact Hpr|]. split; [exact Hc|].
      exists (S k). split; [lia|].
      rewrite Ht. simpl. rewrite rollouts_app.
      change (rollouts [Print thinking_notice]) with O.
      change (budget (self (say [Print thinking_notice] w1))) with (budget (self w1)).
      rewrite Ht1, Hb1. lia.
    + destruct (pick_child_ret_inv _ _ _ _ Hrun)
        as (Hpr & r & c & cs & Hr & Hcs & -> & ->).
      split; [exact Hpr|]. split.
      * exists (max_from N c cs). split; reflexivity.
      * exists 1%nat. split; [lia|]. simpl. rewrite Ht1. lia.
Qed.

(** Every returned move was picked by lines 163-166 from the children of the
    root that the last round left. *)
Lemma find_move_ret_selection (fuel : nat) :
  forall (b : Board) (debug pick_random : bool) (w w' : world) (m : option Move),
    find_move fuel b debug pick_random w = (Ret m, w') ->
    exists w1 r c cs,
      node (self w1) = Some r /\ children r = c :: cs /\
      w' = with_node (max_from N c cs) w1 /\ m = move (max_from N c cs).
Proof.
  induction fuel as [|fuel IH]; intros b debug pick_random w w' m Hrun.
  - discriminate.
  - destruct (search_round b debug w) as [o w1] eqn:Hround.
    destruct o as [[]|e|];
      try (pose proof (find_move_round_fails fuel b debug pick_random w w1 _
                         Hround eq_refl) as Hf;
           rewrite Hrun in Hf; discriminate).
    rewrite (find_move_step fuel b debug pick_random w w1 Hround) in Hrun.
    destruct (concentration_low w1) as [[[|]|e|] w2]; try discriminate.
    + exact (IH _ _ _ _ _ _ Hrun).
    + destruct (pick_child_ret_inv _ _ _ _ Hrun)
        as (_ & r & c & cs & Hr & Hcs & Hw' & Hm).
      exists w2, r, c, cs. repeat split; assumption.
Qed.

(** In stochastic mode no call of [find_move] ever returns a move. *)
Lemma find_move_random_never_returns (fuel : nat) (b : Board) (debug : bool)
      (w : world) :
  is_ret (fst (find_move fuel b debug true w)) = false.
Proof.
  destruct (find_move fuel b debug true w) as [[m|e|] w'] eqn:Hrun;
    try reflexivity.
  apply find_move_ret_inv in Hrun. destruct Hrun as [Hpr _]. discriminate.
Qed.
End FindMoveFacts.

(** ** The claims *)

Section Claims.
Context {Board Move Prior Value : Type} {E : Engine Board Move Prior Value}.

#[local] Abbreviation Node := (Node Board Move Prior Value).
#[local] Abbreviation M := (M Board Move Prior Value).
#[local] Abbreviation world := (world Board Move Prior Value).

(** C2, as the code has it: when the root has no children after the
    iteration loop, [find_move] fails with the [ValueError] that [max]
    raises on the empty children collection at the concentration test; it
    neither recurses nor produces a move, and the controller is left as the
    round left it. *)
Theorem find_move_without_children_raises_value_error
        (fuel : nat) (b : Board) (debug pick_random : bool)
        (w w1 : world) (r : Node) :
  search_round b debug w = (Ret tt, w1) ->
  node (self w1) = Some r ->
  children r = [] ->
  find_move (S fuel) b debug pick_random w = (Raise ValueError, w1).
Proof.
  intros Hround Hr Hc.
  rewrite (find_move_step fuel b debug pick_random w w1 Hround).
  rewrite (concentration_low_run w1 r Hr), Hc. reflexivity.
Qed.


(** C7: in deterministic mode the selection, on a root with children, takes
    the first child among those with the largest visit count (every child in
    front of it has strictly fewer visits, no child behind it has more),
    records it as the controller's root and returns the move stored in it;
    [find_move] ends with exactly this selection as soon as the round has left
    a visited root that passes the concentration test, and every move it ever
    returns was selected in this way. *)
Theorem deterministic_selection_first_most_visited :
  (forall (w1 : world) (r : Node),
      node (self w1) = Some r ->
      children r <> [] ->
      exists before c after,
        children r = before ++ c :: after /\
        Forall (fun x => N x < N c) before /\
        Forall (fun x => N x <= N c) after /\
        pick_child false w1 = (Ret (move c), with_node c w1)) /\
  (forall (fuel : nat) (b : Board) (debug : bool) (w w1 : world) (r : Node) (top : Z),
      search_round b debug w = (Ret tt, w1) ->
      node (self w1) = Some r ->
      py_max (map N (children r)) = Ret top ->
      0 < N r ->
      N r <= 5 * top ->
      find_move (S fuel) b debug false w = pick_child false w1) /\
  (forall (fuel : nat) (b : Board) (debug : bool) (w w' : world) (m : option Move),
      find_move fuel b debug false w = (Ret m, w') ->
      exists w1, pick_child false w1 = (Ret m, w')).
Proof.
  split; [|split].
  - intros w1 r Hr Hne.
    destruct (children r) as [|c0 cs] eqn:Hc; [contradiction|].
    destruct (max_from_first N cs c0) as (before & after & Heq & Hb & Ha).
    exists before, (max_from N c0 cs), after.
    split; [exact Heq|]. split; [exact Hb|]. split; [exact Ha|].
    exact (pick_child_best w1 r c0 cs Hr Hc).
  - intros fuel b debug w w1 r top Hround Hr Hmax Hpos Hge.
    rewrite (find_move_step fuel b debug false w w1 Hround).
    rewrite (concentration_low_high w1 r top Hr Hmax Hpos Hge). reflexivity.
  - intros fuel b debug w w' m Hrun.
    destruct (find_move_ret_selection fuel b debug false w w' m Hrun)
      as (w1 & r & c & cs & Hr & Hc & -> & ->).
    exists w1. exact (pick_child_best w1 r c cs Hr Hc).
Qed.

(** C5: if the controller holds a root and one of its children carries a
    board equal to the supplied one, lines 128-139 make the first such child
    the root: the controller afterwards holds that very node, statistics and
    subtree included, and nothing is constructed or printed.  Moreover,
    whenever [find_move] has returned a move, the controller holds the
    selected child, whose move it returned; a later call with a board equal
    to that child's board keeps it as the root, again without constructing
    a node. *)
Theorem tree_reuse (b : Board) (debug : bool) (w : world) :
  (forall r before c after,
      node (self w) = Some r ->
      children r = before ++ c :: after ->
      Forall (fun x => board_eqb (board x) b = false) before ->
      board_eqb (board c) b = true ->
      acquire_root b debug w = (Ret tt, with_node c w)) /\
  (forall fuel b0 debug0 pick_random w0 m,
      find_move fuel b0 debug0 pick_random w0 = (Ret m, w) ->
      exists c,
        node (self w) = Some c /\ move c = m /\
        (board_eqb (board c) b = true ->
         Forall (fun x => board_eqb (board x) b = false) (children c) ->
         acquire_root b debug w = (Ret tt, w))).
Proof.
  split.
  - intros r before c after Hr Hc Hbefore Hmatch.
    rewrite acquire_root_run. unfold reused_root. rewrite Hr, Hc.
    rewrite (find_first (fun n => board_eqb (board n) b) before after c
               Hbefore Hmatch).
    reflexivity.
  - intros fuel b0 debug0 pick_random w0 m Hrun.
    destruct (find_move_ret_inv fuel b0 debug0 pick_random w0 w m Hrun)
      as (_ & (c & Hc & Hm) & _).
    exists c. split; [exact Hc|]. split; [exact Hm|].
    intros Hb Hkids.
    rewrite acquire_root_run. unfold reused_root. rewrite Hc.
    rewrite (find_none_Forall _ _ Hkids), Hb.
    rewrite (with_node_same w c Hc). reflexivity.
Qed.

(** C8: with [pvs] set, lines 142-145 call the engine once on the root and
    print the priors line, before the budget loop; a completed round has
    called the engine [rolls + 1] times ([rolls] times when [pvs] is 0), all
    on the root settled at its start; and a call of [find_move] that returns
    has run some number [k >= 1] of such rounds, extension rounds included,
    with [k] times that many engine calls in all. *)
Theorem engine_calls_per_round (b : Board) (debug : bool) (w : world) :
  (forall r, node (self w) = Some r -> pvs (self w) <> 0 ->
     print_priors b w =
     (Ret tt, say [Rollout; Print (priors_line b (rollout r))]
                  (with_node (rollout r) w))) /\
  (forall w', search_round b debug w = (Ret tt, w') ->
     rollouts (trace w') = (rollouts (trace w) + budget (self w))%nat /\
     exists r0 out0 out,
       acquire_root b debug w = (Ret tt, say out0 (with_node r0 w)) /\
       rollouts out0 = O /\
       w' = say (out0 ++ out)
                (with_node (Nat.iter (budget (self w)) rollout r0) w) /\
       (pvs (self w) <> 0 ->
        exists rest,
          out = Rollout :: Print (priors_line b (rollout r0)) :: rest /\
          rollouts rest = Z.to_nat (rolls (self w)))) /\
  (forall fuel pick_random m w',
     find_move fuel b debug pick_random w = (Ret m, w') ->
     exists k, (1 <= k <= fuel)%nat /\
       rollouts (trace w') = (rollouts (trace w) + k * budget (self w))%nat) /\
  budget (self w)
  = (Z.to_nat (rolls (self w)) + if (pvs (self w) =? 0)%Z then 0 else 1)%nat.
Proof.
  split; [|split; [|split]].
  - intros r Hr Hp. rewrite (print_priors_run b w r Hr).
    destruct (Z.eqb_spec (pvs (self w)) 0); [contradiction | reflexivity].
  - intros w' Hround.
    destruct (search_round_inv b debug w w' Hround)
      as (r0 & out0 & out & Hacq & Hout0 & Hw' & Hout & Hpre).
    split.
    + rewrite Hw'. simpl. rewrite !rollouts_app, Hout0, Hout. lia.
    + exists r0, out0, out. repeat split; assumption.
  - intros fuel pick_random m w' Hrun.
    destruct (find_move_ret_inv fuel b debug pick_random w w' m Hrun)
      as (_ & _ & k & Hk & Ht).
    exists k. split; [exact Hk|]. exact Ht.
  - reflexivity.
Qed.

(** C9: called with [rolls = 0] and [pvs = 0] on a controller without a
    root, [find_move] creates the root and then fails at the concentration
    test with the [ValueError] of [max] over the empty children collection:
    no engine call, no selection.  Nor is a zero root visit count guarded:
    with children present and [N = 0] the same test raises
    [ZeroDivisionError]. *)
Theorem zero_budget_fresh_root_raises
        (fuel : nat) (b : Board) (debug pick_random : bool) (tr : list event) :
  find_move (S fuel) b debug pick_random (mkWorld (mkModel 0 0 None) tr)
  = (Raise ValueError,
     mkWorld (mkModel 0 0 (Some (new_node b)))
             (if debug then tr ++ [Print creating_notice] else tr)) /\
  children (new_node b) = [] /\
  forall (rl pv : Z) (bd : Board) (pb : option Board) (mv : option Move)
         (q : Value) (p : Prior) (c : Node) (cs : list Node),
    concentration_low
      (mkWorld (mkModel rl pv (Some (mkNode bd pb mv 0 q p (c :: cs)))) tr)
    = (Raise ZeroDivisionError,
       mkWorld (mkModel rl pv (Some (mkNode bd pb mv 0 q p (c :: cs)))) tr).
Proof.
  split; [|split].
  - destruct debug; reflexivity.
  - reflexivity.
  - intros. set (r := mkNode bd pb mv 0 q p (c :: cs)).
    rewrite (concentration_low_run (mkWorld (mkModel rl pv (Some r)) tr) r eq_refl).
    unfold r. cbn [children N]. rewrite py_max_map_N. reflexivity.
Qed.

(** C10: [print_pvs] always ends, and whether it completes or raises it
    leaves the controller object as it found it, root and whole tree included
    (so every node reachable from the root keeps its visit count, value
    estimate, move and children, in order); it calls the engine not at all
    and only adds console output. *)
Theorem print_pvs_frame (w : world) :
  fst (print_pvs w) <> OutOfFuel /\
  self (snd (print_pvs w)) = self w /\
  node (self (snd (print_pvs w))) = node (self w) /\
  exists out,
    trace (snd (print_pvs w)) = trace w ++ out /\
    rollouts out = O /\
    Forall (fun e => is_rollout e = false) out.
Proof.
  split; [apply print_pvs_settles|].
  destruct (quiet_print_pvs w) as (out & Hs & Ho). rewrite Hs.
  split; [reflexivity|]. split; [reflexivity|].
  exists out. split; [reflexivity|]. split; [exact Ho|].
  clear Hs. unfold rollouts in Ho. induction out as [|e out IH].
  - constructor.
  - simpl in Ho. destruct e as [|s]; simpl in Ho; [discriminate|].
    constructor; [reflexivity | apply IH, Ho].
Qed.
End Claims.

(** ** The claims on concrete runs *)

#[local] Existing Instance Toy.engine.

(** C1: on the root with child visit counts 50, 30 and 20, a stochastic
    [find_move] does not sample a child: it raises [AttributeError] when it
    reads [self.children], after the round has run, and leaves the root in
    place; the deterministic call on the same controller returns the move of
    the 50-visit child.  No stochastic call ever returns a move. *)
Theorem stochastic_selection_raises_attribute_error :
  let w := Toy.holding 1 0 Toy.root_50_30_20 in
  fst (find_move 3 40%nat false true w) = Raise AttributeError /\
  snd (find_move 3 40%nat false true w) = Toy.after_round 40 false w /\
  fst (find_move 3 40%nat false false w) = Ret (Some 0%nat) /\
  (forall fuel b debug w',
      is_ret (fst (find_move (E := Toy.engine) fuel b debug true w')) = false).
Proof.
  split; [vm_compute; reflexivity|].
  split; [vm_compute; reflexivity|].
  split; [vm_compute; reflexivity|].
  intros. apply find_move_random_never_returns.
Qed.

(** C2, refuted as stated: on a position without legal moves the failure of
    [find_move] is the very exception that [max] raises on the empty children
    collection, not a signal of its own. *)
Lemma terminal_board_failure_is_max_over_empty :
  fst (find_move 3 0%nat false false (Toy.fresh 1 0)) = Raise ValueError /\
  py_max [] = Raise ValueError /\
  ~ no_legal_move_signal (fst (find_move 3 0%nat false false (Toy.fresh 1 0))).
Proof.
  split; [vm_compute; reflexivity|]. split; [reflexivity|].
  intros (e & He & Hne). vm_compute in He. apply Hne.
  injection He as <-. reflexivity.
Qed.

(** C2 on the position without legal moves. *)
Lemma find_move_without_children_raises_value_error_witness :
  find_move 1 0%nat false true (Toy.fresh 1 0)
  = (Raise ValueError, Toy.after_round 0 false (Toy.fresh 1 0)).
Proof.
  apply (find_move_without_children_raises_value_error (E := Toy.engine)
           0 0%nat false true (Toy.fresh 1 0)
           (Toy.after_round 0 false (Toy.fresh 1 0))
           (Toy.root_of (Toy.after_round 0 false (Toy.fresh 1 0))));
    vm_compute; reflexivity.
Defined.



(** C7 on the 50/30/20 root: the 50-visit child is chosen. *)
Lemma deterministic_selection_first_most_visited_witness :
  let w := Toy.holding 1 0 Toy.root_50_30_20 in
  let w1 := Toy.after_round 40 false w in
  (exists before c after,
      children (Toy.root_of w1) = before ++ c :: after /\
      Forall (fun x => N x < N c) before /\
      Forall (fun x => N x <= N c) after /\
      pick_child false w1 = (Ret (move c), with_node c w1)) /\
  find_move 1 40%nat false false w = pick_child false w1 /\
  exists w2,
    pick_child false w2
    = (Ret (Some 0%nat), snd (find_move 3 40%nat false false w)).
Proof.
  intros w w1.
  destruct (deterministic_selection_first_most_visited (E := Toy.engine))
    as (Hpick & Hstep & Hall).
  split; [|split].
  - apply Hpick.
    + vm_compute; reflexivity.
    + vm_compute; discriminate.
  - apply (Hstep 0%nat 40%nat false w w1 (Toy.root_of w1) 50).
    + vm_compute; reflexivity.
    + vm_compute; reflexivity.
    + vm_compute; reflexivity.
    + vm_compute; reflexivity.
    + vm_compute; discriminate.
  - apply (Hall 3%nat 40%nat false w). vm_compute; reflexivity.
Defined.

(** C5: the reply leading to position 38 promotes the second child of the
    50/30/20 root; after a search from position 30 the selected child, at
    position 29, is kept by the next call. *)
Lemma tree_reuse_witness :
  let w := Toy.holding 1 0 Toy.root_50_30_20 in
  let w' := snd (find_move 3 30%nat false false (Toy.fresh 4 0)) in
  acquire_root 38%nat true w = (Ret tt, with_node (Toy.leaf 38 40 1 30) w) /\
  exists c, node (self w') = Some c /\
            move c = Some 0%nat /\
            acquire_root 29%nat true w' = (Ret tt, w').
Proof.
  intros w w'. split.
  - apply (proj1 (tree_reuse (E := Toy.engine) 38%nat true w)
             Toy.root_50_30_20 [Toy.leaf 39 40 0 50] (Toy.leaf 38 40 1 30)
             [Toy.leaf 37 40 2 20]).
    + reflexivity.
    + reflexivity.
    + repeat constructor.
    + reflexivity.
  - destruct (proj2 (tree_reuse (E := Toy.engine) 29%nat true w')
                3%nat 30%nat false false (Toy.fresh 4 0) (Some 0%nat))
      as (c & Hc & Hm & Hkeep).
    + vm_compute; reflexivity.
    + exists c. split; [exact Hc|]. split; [exact Hm|].
      assert (Hc' : Some c = Some (Toy.root_of w')).
      { rewrite <- Hc. vm_compute; reflexivity. }
      injection Hc' as ->.
      apply Hkeep.
      * vm_compute; reflexivity.
      * vm_compute. repeat constructor.
Defined.

(** C8 with a budget of four: five engine calls with two diagnostic lines,
    four without diagnostics. *)
Lemma engine_calls_per_round_witness :
  let w := Toy.holding 4 2 Toy.root_50_30_20 in
  rollouts (trace (Toy.after_round 40 false w)) = 5%nat /\
  rollouts (trace (snd (find_move 3 40%nat false false w))) = 5%nat /\
  rollouts (trace (Toy.after_round 40 false (Toy.holding 4 0 Toy.root_50_30_20)))
  = 4%nat.
Proof.
  intros w.
  destruct (engine_calls_per_round (E := Toy.engine) 40%nat false w)
    as (_ & Hround & Hcall & Hb).
  destruct (engine_calls_per_round (E := Toy.engine) 40%nat false
              (Toy.holding 4 0 Toy.root_50_30_20))
    as (_ & Hround0 & _ & _).
  split; [|split].
  - destruct (Hround (Toy.after_round 40 false w)) as [Ht _].
    + vm_compute; reflexivity.
    + rewrite Ht. vm_compute; reflexivity.
  - vm_compute; reflexivity.
  - destruct (Hround0 (Toy.after_round 40 false (Toy.holding 4 0 Toy.root_50_30_20)))
      as [Ht _].
    + vm_compute; reflexivity.
    + rewrite Ht. vm_compute; reflexivity.
Defined.

(** C6: the forced line below position 10 is exactly ten moves long.  Its
    principal variation is rendered with all ten moves, none cut, and the
    truncation marker is appended all the same. *)
Theorem pv_of_exactly_ten_moves_gets_marker :
  exists pv,
    pv_moves Toy.forced_line 0 = Ret pv /\
    List.length pv = 10%nat /\
    firstn 10 pv = pv /\
    clip_pv pv = pv ++ ["..."%string] /\
    hd_error (trace (snd (print_pvs (Toy.holding 10 1 Toy.forced_line))))
    = Some (Print ("Pv1: " ++ join ", " (pv ++ ["..."%string]) ++ nl)).
Proof.
  eexists. split; [vm_compute; reflexivity|].
  repeat split; vm_compute; reflexivity.
Qed.

(** * Further properties of the code *)

(** ** [sorted] *)

Section SortedFacts.
Context {A : Type} (key : A -> Z).

#[local] Abbreviation by_key := (fun x y : A => key x <=? key y).

Lemma insert_sorted_perm (before : A -> A -> bool) (x : A) (l : list A) :
  Permutation (insert_sorted before x l) (x :: l).
Proof.
  induction l as [|y l IH]; simpl.
  - apply Permutation_refl.
  - destruct (before x y).
    + apply Permutation_refl.
    + apply Permutation_trans with (y :: x :: l).
      * apply perm_skip, IH.
      * apply perm_swap.
Qed.

Lemma py_sorted_perm (before : A -> A -> bool) (l : list A) :
  Permutation (py_sorted before l) l.
Proof.
  induction l as [|x l IH]; simpl.
  - apply perm_nil.
  - apply Permutation_trans with (x :: py_sorted before l).
    + apply insert_sorted_perm.
    + apply perm_skip, IH.
Qed.

Lemma insert_sorted_sorted (x : A) (l : list A) :
  StronglySorted (fun a b => key a <= key b) l ->
  StronglySorted (fun a b => key a <= key b) (insert_sorted by_key x l).
Proof.
  induction 1 as [|y l Hs IH Hall]; simpl.
  - constructor; constructor.
  - destruct (Z.leb_spec (key x) (key y)) as [Hle|Hgt].
    + constructor.
      * constructor; assumption.
      * constructor; [exact Hle|].
        eapply Forall_impl; [|exact Hall]. simpl. intros a Ha. lia.
    + constructor; [exact IH|].
      apply (Permutation_Forall (Permutation_sym (insert_sorted_perm by_key x l))).
      constructor; [lia | exact Hall].
Qed.

Lemma insert_sorted_class (k : Z) (x : A) (l : list A) :
  filter (fun a => key a =? k) (insert_sorted by_key x l)
  = filter (fun a => key a =? k) (x :: l).
Proof.
  induction l as [|y l IH]; simpl.
  - reflexivity.
  - destruct (Z.leb_spec (key x) (key y)) as [Hle|Hgt].
    + reflexivity.
    + simpl. rewrite IH. simpl.
      destruct (Z.eqb_spec (key x) k) as [Hx|Hx];
        destruct (Z.eqb_spec (key y) k) as [Hy|Hy]; try reflexivity.
      lia.
Qed.

(** [sorted(l, key=...)] returns the elements of [l], each as often as it
    occurs, in non-decreasing key order, and keeps elements of equal key in
    their original order. *)
Lemma py_sorted_by_key_spec (l : list A) :
  Permutation (py_sorted by_key l) l /\
  StronglySorted (fun a b => key a <= key b) (py_sorted by_key l) /\
  forall k, filter (fun a => key a =? k) (py_sorted by_key l)
            = filter (fun a => key a =? k) l.
Proof.
  split; [apply py_sorted_perm|]. split.
  - induction l as [|x l IH]; simpl.
    + constructor.
    + apply insert_sorted_sorted, IH.
  - intros k. induction l as [|x l IH]; simpl.
    + reflexivity.
    + rewrite insert_sorted_class. simpl. rewrite IH. reflexivity.
Qed.
End SortedFacts.

Lemma max_from_lower {A} (key : A -> Z) (l : list A) (best : A) :
  key best <= key (max_from key best l).
Proof.
  destruct (max_from_first key l best) as (l1 & l2 & Heq & H1 & _).
  destruct l1 as [|y l1].
  - injection Heq as Hb _. rewrite <- Hb. lia.
  - injection Heq as Hb _. subst y. apply Forall_inv in H1. simpl in H1. lia.
Qed.

Lemma max_from_cons {A} (key : A -> Z) (l : list A) :
  forall a x,
    max_from key a (x :: l)
    = if key a <? key (max_from key x l) then max_from key x l else a.
Proof.
  induction l as [|y l IH]; intros a x.
  - reflexivity.
  - change (max_from key a (x :: y :: l))
      with (if key a <? key x then max_from key x (y :: l)
            else max_from key a (y :: l)).
    destruct (Z.ltb_spec (key a) (key x)) as [Hax|Hax].
    + pose proof (max_from_lower key (y :: l) x) as Hlow.
      destruct (Z.ltb_spec (key a) (key (max_from key x (y :: l)))); [reflexivity | lia].
    + rewrite (IH a y), (IH x y).
      destruct (Z.ltb_spec (key x) (key (max_from key y l))) as [Hxy|Hxy].
      * reflexivity.
      * destruct (Z.ltb_spec (key a) (key (max_from key y l)));
          destruct (Z.ltb_spec (key a) (key x)); try reflexivity; lia.
Qed.


(** ** The report of [print_pvs] *)

Section ReportFacts.
Context {Board Move Prior Value : Type} {E : Engine Board Move Prior Value}.

#[local] Abbreviation Node := (Node Board Move Prior Value).
#[local] Abbreviation M := (M Board Move Prior Value).
#[local] Abbreviation world := (world Board Move Prior Value).

(** X1: the ranking of line 113, [sorted(node.children, key=lambda n:-n.N)],
    holds exactly the children of the root, in non-increasing order of
    visits, children with the same number of visits in their order among the
    children. *)
Theorem pv_ranking_spec (r : Node) :
  let ranking := py_sorted (fun x y => - N x <=? - N y) (children r) in
  Permutation ranking (children r) /\
  StronglySorted (fun a b => N b <= N a) ranking /\
  forall n, filter (fun a => N a =? n) ranking
            = filter (fun a => N a =? n) (children r).
Proof.
  intros ranking.
  destruct (py_sorted_by_key_spec (fun x : Node => - N x) (children r))
    as (Hperm & Hsorted & Hstable).
  split; [exact Hperm|]. split.
  - clear Hperm Hstable. subst ranking.
    induction Hsorted as [|a l _ IH Hall]; constructor.
    + exact IH.
    + eapply Forall_impl; [|exact Hall]. simpl. intros b Hb. lia.
  - intros n. specialize (Hstable (- n)). subst ranking.
    assert (Hf : forall l : list Node,
               filter (fun a => - N a =? - n) l = filter (fun a => N a =? n) l).
    { intros l. apply filter_ext. intros a.
      destruct (Z.eqb_spec (- N a) (- n)); destruct (Z.eqb_spec (N a) n);
        try reflexivity; lia. }
    rewrite <- !Hf. exact Hstable.
Qed.

(** The ranking at the root of [print_pvs] starts with the child that
    [max(..., key=N)] picks. *)
Lemma ranking_head (cs : list Node) :
  forall c,
    hd_error (py_sorted (fun x y => - N x <=? - N y) (c :: cs))
    = Some (max_from N c cs).
Proof.
  induction cs as [|x cs IH]; intros c.
  - reflexivity.
  - change (py_sorted (fun x y => - N x <=? - N y) (c :: x :: cs))
      with (insert_sorted (fun x y => - N x <=? - N y) c
              (py_sorted (fun x y => - N x <=? - N y) (x :: cs))).
    specialize (IH x). rewrite max_from_cons.
    destruct (py_sorted (fun x y => - N x <=? - N y) (x :: cs)) as [|m rest];
      [discriminate|].
    injection IH as ->. simpl.
    destruct (Z.leb_spec (- N c) (- N (max_from N x cs)));
      destruct (Z.ltb_spec (N c) (N (max_from N x cs))); try reflexivity; lia.
Qed.

Lemma pv_descend_extends (fuel : nat) :
  forall (nd : Node) (pv pv' : list string),
    pv_descend fuel nd pv = Ret pv' -> exists ext, pv' = pv ++ ext.
Proof.
  induction fuel as [|fuel IH]; intros nd pv pv' H.
  - destruct nd as [bd pb mv n q p [|c cs]]; simpl in H; [|discriminate].
    injection H as <-. exists []. rewrite app_nil_r. reflexivity.
  - destruct nd as [bd pb mv n q p [|c cs]]; simpl in H.
    + injection H as <-. exists []. rewrite app_nil_r. reflexivity.
    + destruct (parent_board (max_from N c cs)) as [pb'|]; [|discriminate].
      destruct (IH _ _ _ H) as (ext & ->).
      eexists. rewrite <- app_assoc. reflexivity.
Qed.

(** X2: the first principal variation starts with the move the deterministic
    selection plays: whenever [print_pvs] can render line 0 of a root, its
    first entry is the annotated move of the child [find_move] would select
    from that root. *)
Theorem first_pv_starts_with_selected_child
        (w : world) (r c : Node) (cs : list Node) (pv : list string) :
  node (self w) = Some r ->
  children r = c :: cs ->
  pv_moves r 0 = Ret pv ->
  exists best pb rest,
    pick_child false w = (Ret (move best), with_node best w) /\
    parent_board best = Some pb /\
    pv = (san pb (move best) ++ " " ++ fmt_share (N best) (N r)
          ++ " (" ++ fmt_neg_value (Q best) ++ ")")%string :: rest.
Proof.
  intros Hr Hc Hpv. exists (max_from N c cs).
  unfold pv_moves in Hpv. rewrite Hc in Hpv.
  pose proof (ranking_head cs c) as Hhd.
  destruct (py_sorted (fun x y => - N x <=? - N y) (c :: cs)) as [|m rest0];
    [discriminate|].
  injection Hhd as ->. cbn [Z.to_nat nth_error] in Hpv.
  destruct (parent_board (max_from N c cs)) as [pb|]; [|discriminate].
  destruct (N r =? 0); [discriminate|].
  destruct (pv_descend_extends _ _ _ _ Hpv) as (ext & ->).
  exists pb, ext. split; [exact (pick_child_best w r c cs Hr Hc)|].
  split; reflexivity.
Qed.

Lemma for_from_lines (root : Node) (n : nat) :
  forall (i : Z) (w w' : world),
    for_from i n (fun i =>
      pv <- lift (pv_moves root i) ;;
      print ("Pv" ++ py_str (i + 1) ++ ": " ++ join ", " (clip_pv pv) ++ nl)) w
    = (Ret tt, w') ->
    exists lines,
      w' = say (map Print lines) w /\
      List.length lines = n /\
      forall j, (j < n)%nat ->
        exists pv,
          pv_moves root (i + Z.of_nat j) = Ret pv /\
          nth_error lines j
          = Some ("Pv" ++ py_str (i + Z.of_nat j + 1) ++ ": "
                  ++ join ", " (clip_pv pv) ++ nl)%string.
Proof.
  induction n as [|n IH]; intros i w w' Hrun.
  - injection Hrun as <-. exists []. rewrite say_nil.
    split; [reflexivity|]. split; [reflexivity|]. intros j Hj. lia.
  - cbn [for_from] in Hrun.
    apply bind_ret_inv in Hrun. destruct Hrun as ([] & w1 & Hbody & Hrest).
    unfold bind, lift, print, emit in Hbody.
    destruct (pv_moves root i) as [pv| |] eqn:Hpv; try discriminate.
    injection Hbody as <-.
    destruct (IH _ _ _ Hrest) as (lines & -> & Hlen & Hnth).
    exists (("Pv" ++ py_str (i + 1) ++ ": " ++ join ", " (clip_pv pv) ++ nl)%string
            :: lines).
    split; [|split].
    + unfold say; simpl. rewrite <- app_assoc. reflexivity.
    + simpl. rewrite Hlen. reflexivity.
    + intros [|j] Hj.
      * exists pv. rewrite Z.add_0_r. split; [exact Hpv | reflexivity].
      * destruct (Hnth j ltac:(lia)) as (pv' & Hpv' & Hl).
        exists pv'. replace (i + Z.of_nat (S j)) with (i + 1 + Z.of_nat j) by lia.
        split; [exact Hpv' | exact Hl].
Qed.

(** X3: a completed [print_pvs] has written exactly [min(pvs, number of
    root children)] lines (none when that is not positive), line [j] being
    ["Pv<j+1>: "] followed by the clipped principal variation of rank [j],
    and then the two cursor codes, the second carrying that same count. *)
Theorem print_pvs_report (w w' : world) :
  print_pvs w = (Ret tt, w') ->
  exists r lines,
    node (self w) = Some r /\
    let k := Z.min (pvs (self w)) (Z.of_nat (List.length (children r))) in
    w' = say (map Print lines
              ++ [Print (esc ++ "[1000D"); Print (esc ++ "[" ++ py_str k ++ "A")]) w /\
    List.length lines = Z.to_nat k /\
    forall j, (j < Z.to_nat k)%nat ->
      exists pv,
        pv_moves r (Z.of_nat j) = Ret pv /\
        nth_error lines j
        = Some ("Pv" ++ py_str (Z.of_nat j + 1) ++ ": "
                ++ join ", " (clip_pv pv) ++ nl)%string.
Proof.
  intros Hrun. unfold print_pvs in Hrun.
  apply bind_ret_inv in Hrun. destruct Hrun as (r & wa & Hnode & Hrun).
  unfold the_node in Hnode.
  destruct (node (self w)) as [r0|] eqn:Hr; [|discriminate].
  injection Hnode as -> <-.
  apply bind_ret_inv in Hrun. destruct Hrun as (s & wb & Hself & Hrun).
  injection Hself as <- <-.
  apply bind_ret_inv in Hrun. destruct Hrun as ([] & w1 & Hloop & Hrun).
  unfold for_range in Hloop.
  destruct (for_from_lines r _ _ _ _ Hloop) as (lines & -> & Hlen & Hnth).
  exists r, lines. split; [reflexivity|]. intros k.
  split; [|split].
  - unfold bind, print, emit in Hrun. simpl in Hrun. injection Hrun as <-.
    unfold say; simpl. rewrite <- !app_assoc. reflexivity.
  - exact Hlen.
  - intros j Hj. destruct (Hnth j Hj) as (pv & Hpv & Hl).
    exists pv. split; [exact Hpv | exact Hl].
Qed.

End ReportFacts.

(** ** What [find_move] keeps *)

Section SteadyFacts.
Context {Board Move Prior Value : Type} {E : Engine Board Move Prior Value}.

#[local] Abbreviation Node := (Node Board Move Prior Value).
#[local] Abbreviation M := (M Board Move Prior Value).
#[local] Abbreviation world := (world Board Move Prior Value).

Lemma steady_same {A} (m : M A) :
  (forall w, snd (m w) = w) -> steady m.
Proof.
  intros H w. rewrite H. repeat split; try tauto.
  exists []. rewrite app_nil_r. reflexivity.
Qed.

Lemma steady_quiet {A} (m : M A) : quiet m -> steady m.
Proof.
  intros H w. destruct (H w) as (out & -> & _). repeat split.
  - tauto.
  - exists out. reflexivity.
Qed.

Lemma steady_set_node (n : Node) : steady (set_node n).
Proof.
  intros w. repeat split.
  - intros _. discriminate.
  - exists []. simpl. rewrite app_nil_r. reflexivity.
Qed.

Lemma steady_bind {A B} (m : M A) (k : A -> M B) :
  steady m -> (forall a, steady (k a)) -> steady (bind m k).
Proof.
  intros Hm Hk w. destruct (Hm w) as (Hr & Hp & Hn & out & Ht).
  unfold bind. destruct (m w) as [[a|e|] w1]; simpl in *.
  - destruct (Hk a w1) as (Hr' & Hp' & Hn' & out' & Ht').
    rewrite Hr', Hp', Ht', Hr, Hp, Ht. repeat split.
    + intros H. apply Hn', Hn, H.
    + exists (out ++ out'). rewrite app_assoc. reflexivity.
  - repeat split; try assumption. exists out. exact Ht.
  - repeat split; try assumption. exists out. exact Ht.
Qed.

Lemma steady_for_from (body : Z -> M unit) (n : nat) :
  (forall i, steady (body i)) -> forall i, steady (for_from i n body).
Proof.
  intros Hb. induction n as [|n IH]; intros i; simpl.
  - apply steady_same. reflexivity.
  - apply steady_bind; [apply Hb | intros _; apply IH].
Qed.

Lemma steady_emit (e : event) : steady (emit e : M unit).
Proof.
  intros w. repeat split; try tauto. exists [e]. reflexivity.
Qed.

Lemma steady_do_rollout : steady do_rollout.
Proof.
  unfold do_rollout.
  apply steady_bind; [apply steady_quiet, quiet_the_node | intros n].
  apply steady_bind; [apply steady_emit | intros _; apply steady_set_node].
Qed.

Lemma steady_acquire_root (b : Board) (debug : bool) :
  steady (acquire_root b debug).
Proof.
  intros w. rewrite acquire_root_run.
  destruct (reused_root b (node (self w))) as [n|]; simpl.
  - repeat split; try discriminate. exists []. rewrite app_nil_r. reflexivity.
  - repeat split; try discriminate. eexists. reflexivity.
Qed.

Lemma rooted_bind {A B} (m : M A) (k : A -> M B) :
  (forall w, node (self (snd (m w))) <> None) ->
  (forall a, steady (k a)) ->
  forall w, node (self (snd (bind m k w))) <> None.
Proof.
  intros Hm Hk w. specialize (Hm w). unfold bind.
  destruct (m w) as [[a|e|] w1]; simpl in *; try exact Hm.
  destruct (Hk a w1) as (_ & _ & Hn & _). apply Hn, Hm.
Qed.

Lemma steady_tail_of_round (b : Board) :
  steady (print_priors b ;; iteration_loop ;; clean_up).
Proof.
  apply steady_bind.
  { unfold print_priors.
    apply steady_bind; [apply steady_quiet, quiet_get_self | intros s].
    destruct (pvs s =? 0); [apply steady_quiet, quiet_ret|].
    apply steady_bind; [apply steady_do_rollout | intros _].
    apply steady_bind; [apply steady_quiet, quiet_the_node | intros r].
    apply steady_quiet, quiet_print. }
  intros _. apply steady_bind.
  { unfold iteration_loop.
    apply steady_bind; [apply steady_quiet, quiet_get_self | intros s].
    unfold for_range. apply steady_for_from. intros i.
    apply steady_bind; [apply steady_do_rollout | intros _].
    destruct (negb (pvs s =? 0) && ((i mod 100 =? 0) || (i =? rolls s - 1))).
    - apply steady_quiet, quiet_print_pvs.
    - apply steady_quiet, quiet_ret. }
  intros _. unfold clean_up.
  apply steady_bind; [apply steady_quiet, quiet_get_self | intros s].
  destruct (pvs s =? 0); apply steady_quiet; [apply quiet_ret | apply quiet_print].
Qed.

Lemma steady_search_round (b : Board) (debug : bool) :
  steady (search_round b debug).
Proof.
  unfold search_round.
  apply steady_bind; [apply steady_acquire_root | intros _].
  apply steady_tail_of_round.
Qed.

Lemma steady_concentration_low : steady (concentration_low : M bool).
Proof.
  apply steady_same. intros w.
  destruct (concentration_low w) as [o w'] eqn:H.
  exact (concentration_low_frame _ _ _ H).
Qed.

Lemma steady_pick_child (pick_random : bool) :
  steady (pick_child pick_random : M (option Move)).
Proof.
  unfold pick_child. apply steady_bind.
  - destruct pick_random.
    + apply steady_same. reflexivity.
    + apply steady_bind; [apply steady_quiet, quiet_the_node | intros r].
      apply steady_bind; [apply steady_quiet, quiet_lift | intros best].
      apply steady_set_node.
  - intros _. apply steady_bind; [apply steady_quiet, quiet_the_node | intros c].
    apply steady_quiet, quiet_ret.
Qed.

Lemma steady_find_move (fuel : nat) (b : Board) (debug pick_random : bool) :
  steady (find_move fuel b debug pick_random).
Proof.
  induction fuel as [|fuel IH]; cbn [find_move].
  - apply steady_same. reflexivity.
  - apply steady_bind; [apply steady_search_round | intros _].
    apply steady_bind; [apply steady_concentration_low | intros low].
    destruct low.
    + apply steady_bind; [apply steady_quiet, quiet_print | intros _; exact IH].
    + apply steady_pick_child.
Qed.

(** X5: whatever its outcome, a call of [find_move] leaves [rolls] and [pvs]
    as they were and only appends to what has been written; and once it has
    got past lines 128-139 the controller holds a root, also when the call
    ends in an exception. *)
Theorem find_move_keeps_controller
        (fuel : nat) (b : Board) (debug pick_random : bool) (w : world) :
  let w' := snd (find_move (S fuel) b debug pick_random w) in
  rolls (self w') = rolls (self w) /\
  pvs (self w') = pvs (self w) /\
  (exists out, trace w' = trace w ++ out) /\
  node (self w') <> None.
Proof.
  intros w'.
  destruct (steady_find_move (S fuel) b debug pick_random w)
    as (Hr & Hp & _ & Hout).
  split; [exact Hr|]. split; [exact Hp|]. split; [exact Hout|].
  subst w'. cbn [find_move].
  apply rooted_bind.
  - unfold search_round. apply rooted_bind.
    + intros w0. rewrite acquire_root_run.
      destruct (reused_root b (node (self w0))); discriminate.
    + intros _. apply (steady_tail_of_round b).
  - intros _. apply steady_bind; [apply steady_concentration_low | intros low].
    destruct low.
    + apply steady_bind; [apply steady_quiet, quiet_print | intros _].
      apply steady_find_move.
    + apply steady_pick_child.
Qed.
End SteadyFacts.

(** ** Root creation, and the recursion budget *)

Section RecursionFacts.
Context {Board Move Prior Value : Type} {E : Engine Board Move Prior Value}.

#[local] Abbreviation Node := (Node Board Move Prior Value).
#[local] Abbreviation M := (M Board Move Prior Value).
#[local] Abbreviation world := (world Board Move Prior Value).

(** X6: when the controller has no root, or its root carries a different
    board and none of the root's children carries the supplied one, lines
    128-139 drop whatever tree there was and install a fresh node for the
    board; ["Creating new node."] is printed exactly when [debug] is set.  A
    root whose own board is the supplied one (and no child's is) is kept and
    nothing is printed. *)
Theorem acquire_root_rebuilds_or_keeps (b : Board) (debug : bool) (w : world) :
  (node (self w) = None ->
   acquire_root b debug w
   = (Ret tt, say (if debug then [Print creating_notice] else [])
                  (with_node (new_node b) w))) /\
  (forall r, node (self w) = Some r ->
     Forall (fun c => board_eqb (board c) b = false) (children r) ->
     acquire_root b debug w
     = (Ret tt, if board_eqb (board r) b then w
                else say (if debug then [Print creating_notice] else [])
                         (with_node (new_node b) w))).
Proof.
  split.
  - intros Hn. rewrite acquire_root_run, Hn. reflexivity.
  - intros r Hr Hkids. rewrite acquire_root_run. unfold reused_root.
    rewrite Hr, (find_none_Forall _ _ Hkids).
    destruct (board_eqb (board r) b); [|reflexivity].
    rewrite (with_node_same w r Hr). reflexivity.
Qed.


End RecursionFacts.

(** ** Strings, and the picture of the board *)

Lemma sapp_nil_r (s : string) : (s ++ "")%string = s.
Proof. induction s as [|x s IH]; simpl; [reflexivity | rewrite IH; reflexivity]. Qed.

Lemma sapp_assoc (s t u : string) : ((s ++ t) ++ u)%string = (s ++ (t ++ u))%string.
Proof. induction s as [|x s IH]; simpl; [reflexivity | rewrite IH; reflexivity]. Qed.

Lemma split_on_snoc (c x : ascii) (s : string) :
  exists init lst,
    split_on c s = init ++ [lst] /\
    split_on c (s ++ String x "")
    = if Ascii.eqb x c then init ++ [lst; ""%string]
      else init ++ [(lst ++ String x "")%string].
Proof.
  induction s as [|y s IH].
  - exists [], ""%string. split; [reflexivity|]. simpl.
    destruct (Ascii.eqb x c); reflexivity.
  - destruct IH as (init & lst & Hs & Hx). simpl. rewrite Hs, Hx.
    destruct (Ascii.eqb y c).
    + exists (""%string :: init), lst. split; [reflexivity|].
      destruct (Ascii.eqb x c); reflexivity.
    + destruct init as [|i0 init]; simpl.
      * exists [], (String y lst). split; [reflexivity|].
        destruct (Ascii.eqb x c); reflexivity.
      * exists (String y i0 :: init), lst. split; [reflexivity|].
        destruct (Ascii.eqb x c); reflexivity.
Qed.

Lemma split_on_rev (c : ascii) (s : string) :
  split_on c (rev_string s) = map rev_string (rev (split_on c s)).
Proof.
  induction s as [|y s IH].
  - reflexivity.
  - simpl rev_string.
    destruct (split_on_snoc c y (rev_string s)) as (init & lst & Hs & Hy).
    rewrite Hy. rewrite IH in Hs. simpl split_on.
    destruct (Ascii.eqb y c).
    + simpl rev. rewrite map_app, Hs, <- app_assoc. reflexivity.
    + destruct (split_on c s) as [|l ls] eqn:Hl.
      * simpl in Hs. destruct init; discriminate.
      * simpl rev in *. rewrite map_app in *. simpl map in *.
        apply app_inj_tail in Hs. destruct Hs as [<- <-]. reflexivity.
Qed.

(** Splitting at a character and joining with it again gives the string
    back. *)
Lemma join_split_on (c : ascii) (s : string) :
  join (String c "") (split_on c s) = s.
Proof.
  unfold join. induction s as [|y s IH].
  - reflexivity.
  - simpl split_on. destruct (Ascii.eqb_spec y c) as [->|Hne].
    + destruct (split_on c s) as [|l ls] eqn:Hl.
      * destruct (split_on_snoc c c s) as (init & lst & Hs & _).
        rewrite Hl in Hs. destruct init; discriminate.
      * change (String.concat (String c "") (""%string :: l :: ls))
          with (String c (String.concat (String c "") (l :: ls))).
        rewrite IH. reflexivity.
    + destruct (split_on c s) as [|l ls] eqn:Hl.
      * destruct (split_on_snoc c c s) as (init & lst & Hs & _).
        rewrite Hl in Hs. destruct init; discriminate.
      * rewrite <- IH. destruct ls; reflexivity.
Qed.

Lemma flip_board_rev (board_str : string) :
  flip_board board_str = rev_string board_str.
Proof.
  unfold flip_board. rewrite <- split_on_rev.
  exact (join_split_on newline (rev_string board_str)).
Qed.

Lemma rev_string_snoc (s : string) (x : ascii) :
  rev_string (s ++ String x "") = String x (rev_string s).
Proof.
  induction s as [|y s IH]; simpl; [reflexivity|]. rewrite IH. reflexivity.
Qed.

Lemma rev_string_involutive (s : string) : rev_string (rev_string s) = s.
Proof.
  induction s as [|x s IH]; simpl; [reflexivity|].
  rewrite rev_string_snoc, IH. reflexivity.
Qed.

(** X9: seen from Black's side, the board string is the board string read
    backwards: reversing the order of the lines and each line in itself
    (line 47) reverses the whole text, line breaks included; turning the
    board twice gives the original text back. *)
Theorem flip_board_reverses (board_str : string) :
  flip_board board_str = rev_string board_str /\
  flip_board (flip_board board_str) = board_str.
Proof.
  split; [apply flip_board_rev|].
  rewrite !flip_board_rev. apply rev_string_involutive.
Qed.

Lemma shade_bit (i : Z) : shade i = 0 \/ shade i = 1.
Proof.
  unfold shade. pose proof (Z.mod_pos_bound (i / 2 + i / 16) 2 ltac:(lia)). lia.
Qed.

Lemma dict_get_settles (d : list (ascii * string)) (k : ascii) :
  dict_get d k <> Unfinished.
Proof.
  induction d as [|[k' v] d IH]; simpl; [discriminate|].
  destruct (Ascii.eqb k' k); [discriminate | exact IH].
Qed.

Lemma dict_get_fails (d : list (ascii * string)) (k : ascii) (e : game_exn) :
  dict_get d k = Failed e -> e = KeyError.
Proof.
  induction d as [|[k' v] d IH]; simpl.
  - intros H. injection H as <-. reflexivity.
  - destruct (Ascii.eqb k' k); [discriminate | exact IH].
Qed.

(** The two [if]s of lines 50-51 together append exactly one cell, in the
    colour the index asks for, or fail on a character without a glyph. *)
Lemma paint_run (i : Z) (p : ascii) (colored : list string) :
  paint i p colored =
  match dict_get uni_pieces p with
  | Done g =>
      Done (colored ++ [((if (shade i =? 0)%Z then light_bg else dark_bg) ++ g)%string])
  | Failed e => Failed KeyError
  | Unfinished => Unfinished
  end.
Proof.
  unfold paint.
  destruct (dict_get uni_pieces p) as [g|e|] eqn:Hg.
  - destruct (shade_bit i) as [-> | ->]; reflexivity.
  - apply dict_get_fails in Hg. subst e.
    destruct (shade_bit i) as [-> | ->]; reflexivity.
  - destruct (shade_bit i) as [-> | ->]; reflexivity.
Qed.

(** X10: the squares are shaded like a chessboard.  In the text of
    [str(board)], sixteen characters to the rank and two to the square, the
    character of rank line [r] and file column [c], and the blank after it,
    get the light background when [r + c] is even and the dark one when it is
    odd. *)
Theorem squares_alternate (r c d : Z) (p : ascii) (g : string)
        (colored : list string) :
  0 <= r -> 0 <= c < 8 -> 0 <= d <= 1 ->
  dict_get uni_pieces p = Done g ->
  paint (16 * r + 2 * c + d) p colored
  = Done (colored
          ++ [((if ((r + c) mod 2 =? 0)%Z then light_bg else dark_bg) ++ g)%string]).
Proof.
  intros Hr Hc Hd Hg. rewrite paint_run, Hg.
  assert (Hs : shade (16 * r + 2 * c + d) = (r + c) mod 2).
  { unfold shade.
    assert (H2 : (16 * r + 2 * c + d) / 2 = 8 * r + c).
    { symmetry. apply (Z.div_unique _ 2 _ d); lia. }
    assert (H16 : (16 * r + 2 * c + d) / 16 = r).
    { symmetry. apply (Z.div_unique _ 16 _ (2 * c + d)); lia. }
    rewrite H2, H16.
    replace (8 * r + c + r) with (r + c + 4 * r * 2) by lia.
    apply Z.mod_add. lia. }
  rewrite Hs. reflexivity.
Qed.

Lemma paint_all_ok (chars : list ascii) :
  Forall has_glyph chars ->
  forall i colored, exists colored',
    paint_all (enumerate_from i chars) colored = Done colored'.
Proof.
  induction 1 as [|p chars (g & Hg) _ IH]; intros i colored; simpl.
  - eexists. reflexivity.
  - rewrite paint_run, Hg. apply IH.
Qed.

Lemma paint_all_bad (chars : list ascii) :
  Exists (fun p => ~ has_glyph p) chars ->
  forall i colored,
    paint_all (enumerate_from i chars) colored = Failed KeyError.
Proof.
  induction chars as [|p chars IH]; intros Hex i colored.
  - inversion Hex.
  - simpl. rewrite paint_run.
    destruct (dict_get uni_pieces p) as [g|e|] eqn:Hg.
    + apply IH. inversion Hex as [? ? Hbad|]; [|assumption].
      exfalso. apply Hbad. exists g. exact Hg.
    + reflexivity.
    + exfalso. exact (dict_get_settles _ _ Hg).
Qed.

Lemma chars_rev_string (s : string) :
  list_ascii_of_string (rev_string s) = rev (list_ascii_of_string s).
Proof.
  induction s as [|x s IH]; simpl; [reflexivity|].
  rewrite <- IH. clear IH. induction (rev_string s) as [|y t IHt]; simpl.
  - reflexivity.
  - rewrite IHt. reflexivity.
Qed.

Section PictureFacts.
Context {Board Move Prior Value Nap : Type}
        {E : Engine Board Move Prior Value} {R : Rules Board Move}.

#[local] Abbreviation GM := (GM Board Move Prior Value Nap).
#[local] Abbreviation session := (session Board Move Prior Value Nap).

Lemma gbind_done_run {A B} (m : GM A) (k : A -> GM B) (s s1 : session) (a : A) :
  m s = (Done a, s1) -> gbind m k s = k a s1.
Proof. unfold gbind. intros ->. reflexivity. Qed.

Lemma wrote_wrote (t1 t2 : list string) (s : session) :
  wrote t2 (wrote t1 s) = wrote (t1 ++ t2) s.
Proof.
  unfold wrote; simpl. unfold say; simpl.
  rewrite map_app, app_assoc. reflexivity.
Qed.

(** X11: [print_unicode_board] writes a blank line first.  If every
    character of [str(board)] has a glyph in [uni_pieces] it then writes the
    ranks and the file letters and is done; if some character has none it
    raises [KeyError] with only the blank line written.  Either way it does
    not touch the controller. *)
Theorem print_unicode_board_outcome (b : Board) (perspective : bool) (s : session) :
  (Forall has_glyph (list_ascii_of_string (board_str b)) ->
   exists ranks files,
     board_picture (board_str b) perspective = Done (ranks, files) /\
     print_unicode_board b perspective s
     = (Done tt, wrote [nl; ranks; files] s)) /\
  (Exists (fun p => ~ has_glyph p) (list_ascii_of_string (board_str b)) ->
   print_unicode_board b perspective s = (Failed KeyError, wrote [nl] s)).
Proof.
  assert (Hchars :
    list_ascii_of_string
      (if perspective then board_str b else flip_board (board_str b))
    = if perspective then list_ascii_of_string (board_str b)
      else rev (list_ascii_of_string (board_str b))).
  { destruct perspective; [reflexivity|].
    rewrite flip_board_rev. apply chars_rev_string. }
  split.
  - intros Hall.
    assert (Hall' : Forall has_glyph
              (list_ascii_of_string
                 (if perspective then board_str b else flip_board (board_str b)))).
    { rewrite Hchars. destruct perspective; [exact Hall | apply Forall_rev, Hall]. }
    destruct (paint_all_ok _ Hall' 0 []) as (colored & Hp).
    unfold print_unicode_board, board_picture. rewrite Hp.
    eexists. eexists. split; [reflexivity|].
    unfold gbind, write, call, print, emit, wrote, say; simpl.
    rewrite <- !app_assoc. reflexivity.
  - intros Hex.
    assert (Hex' : Exists (fun p => ~ has_glyph p)
              (list_ascii_of_string
                 (if perspective then board_str b else flip_board (board_str b)))).
    { rewrite Hchars. destruct perspective; [exact Hex | apply Exists_rev, Hex]. }
    unfold print_unicode_board, board_picture.
    rewrite (paint_all_bad _ Hex' 0 []). reflexivity.
Qed.
End PictureFacts.

(** ** The keyboard *)

Section KeyboardFacts.
Context {Board Move Prior Value Nap : Type}
        {E : Engine Board Move Prior Value} {R : Rules Board Move}.

#[local] Abbreviation GM := (GM Board Move Prior Value Nap).
#[local] Abbreviation session := (session Board Move Prior Value Nap).

Lemma input_run (prompt line : string) (rest : list string) (s : session) :
  stdin s = line :: rest ->
  input prompt s = (Done line, read_to rest (wrote [prompt] s)).
Proof.
  intros Hs. unfold input, gbind, write, call, print, emit, read_to, wrote, say; simpl.
  rewrite Hs. reflexivity.
Qed.

Lemma input_eof (prompt : string) (s : session) :
  stdin s = [] ->
  input prompt s = (Failed EOFError, wrote [prompt] s).
Proof.
  intros Hs. unfold input, gbind, write, call, print, emit, wrote, say; simpl.
  rewrite Hs. reflexivity.
Qed.

Lemma read_wrote_again (r r' : list string) (t t' : list string) (s : session) :
  read_to r (wrote t (read_to r' (wrote t' s))) = read_to r (wrote (t' ++ t) s).
Proof.
  unfold read_to, wrote, say; simpl. rewrite map_app, app_assoc. reflexivity.
Qed.

Lemma colour_refused (l : string) :
  l <> "white"%string /\ l <> "black"%string ->
  String.eqb l "white" || String.eqb l "black" = false.
Proof.
  intros [Hw Hb].
  apply String.eqb_neq in Hw. apply String.eqb_neq in Hb. rewrite Hw, Hb.
  reflexivity.
Qed.

Lemma ask_colour_reads (bad : list string) :
  forall (turns : nat) (color good : string) (rest : list string) (s : session),
    stdin s = bad ++ good :: rest ->
    Forall (fun l => l <> "white"%string /\ l <> "black"%string) bad ->
    good = "white"%string \/ good = "black"%string ->
    (List.length bad < turns)%nat ->
    color <> "white"%string /\ color <> "black"%string ->
    ask_colour turns color s
    = (Done (String.eqb good "white"),
       read_to rest
         (wrote (repeat "Do you want to be white or black? "%string
                        (S (List.length bad))) s)).
Proof.
  induction bad as [|x bad IH];
    intros turns color good rest s Hs Hbad Hgood Hturns Hcolor.
  - destruct turns as [|turns]; [simpl in Hturns; lia|].
    cbn [ask_colour]. rewrite (colour_refused color Hcolor).
    rewrite (gbind_done_run _ _ _ _ _ (input_run _ good rest s Hs)).
    destruct turns; cbn [ask_colour];
      destruct Hgood as [-> | ->]; reflexivity.
  - destruct turns as [|turns]; [simpl in Hturns; lia|].
    cbn [ask_colour]. rewrite (colour_refused color Hcolor).
    rewrite (gbind_done_run _ _ _ _ _
               (input_run _ x (bad ++ good :: rest) s Hs)).
    rewrite (IH turns x good rest
               (read_to (bad ++ good :: rest)
                  (wrote ["Do you want to be white or black? "%string] s))
               eq_refl (Forall_inv_tail Hbad) Hgood
               ltac:(simpl in Hturns; lia) (Forall_inv Hbad)).
    rewrite read_wrote_again. reflexivity.
Qed.

Lemma ask_colour_eof (lines : list string) :
  forall (turns : nat) (color : string) (s : session),
    stdin s = lines ->
    Forall (fun l => l <> "white"%string /\ l <> "black"%string) lines ->
    (List.length lines < turns)%nat ->
    color <> "white"%string /\ color <> "black"%string ->
    ask_colour turns color s
    = (Failed EOFError,
       read_to []
         (wrote (repeat "Do you want to be white or black? "%string
                        (S (List.length lines))) s)).
Proof.
  induction lines as [|x lines IH]; intros turns color s Hs Hbad Hturns Hcolor.
  - destruct turns as [|turns]; [simpl in Hturns; lia|].
    cbn [ask_colour]. rewrite (colour_refused color Hcolor).
    unfold gbind. rewrite (input_eof _ s Hs).
    unfold read_to, wrote; simpl. rewrite Hs. reflexivity.
  - destruct turns as [|turns]; [simpl in Hturns; lia|].
    cbn [ask_colour]. rewrite (colour_refused color Hcolor).
    rewrite (gbind_done_run _ _ _ _ _ (input_run _ x lines s Hs)).
    rewrite (IH turns x
               (read_to lines
                  (wrote ["Do you want to be white or black? "%string] s))
               eq_refl (Forall_inv_tail Hbad)
               ltac:(simpl in Hturns; lia) (Forall_inv Hbad)).
    rewrite read_wrote_again. reflexivity.
Qed.

(** X12: [get_user_color] asks until it reads [white] or [black].  It
    skips every other line, prompting once per line read, returns
    [chess.WHITE] exactly when the first accepted line is [white], and leaves
    the lines after it unread; when the input ends before such a line comes,
    it raises [EOFError] after one more prompt. *)
Theorem get_user_color_reads (s : session) :
  (forall bad good rest,
     stdin s = bad ++ good :: rest ->
     Forall (fun l => l <> "white"%string /\ l <> "black"%string) bad ->
     good = "white"%string \/ good = "black"%string ->
     get_user_color s
     = (Done (String.eqb good "white"),
        read_to rest
          (wrote (repeat "Do you want to be white or black? "%string
                         (S (List.length bad))) s))) /\
  (Forall (fun l => l <> "white"%string /\ l <> "black"%string) (stdin s) ->
   get_user_color s
   = (Failed EOFError,
      read_to []
        (wrote (repeat "Do you want to be white or black? "%string
                       (S (List.length (stdin s)))) s))).
Proof.
  split.
  - intros bad good rest Hs Hbad Hgood. unfold get_user_color.
    apply ask_colour_reads; try assumption.
    + rewrite Hs, length_app. simpl. lia.
    + split; discriminate.
  - intros Hbad. unfold get_user_color.
    apply ask_colour_eof; try assumption; try reflexivity.
    + lia.
    + split; discriminate.
Qed.
End KeyboardFacts.

Section UserMoveFacts.
Context {Board Move Prior Value Nap : Type}
        {E : Engine Board Move Prior Value} {R : Rules Board Move}.

#[local] Abbreviation GM := (GM Board Move Prior Value Nap).
#[local] Abbreviation session := (session Board Move Prior Value Nap).

Lemma choice_inv {A} (seq : list A) (s s' : session) (a : A) :
  choice seq s = (Done a, s') ->
  stdin s' = stdin s /\ seq <> [].
Proof.
  unfold choice. destruct seq as [|x seq]; [discriminate|].
  intros H. injection H as _ <-. split; [reflexivity | discriminate].
Qed.

Lemma choice_settles {A} (seq : list A) (s : session) :
  fst (choice seq s) <> Unfinished.
Proof. unfold choice. destruct seq; discriminate. Qed.

Lemma input_inv (prompt line : string) (s s' : session) :
  input prompt s = (Done line, s') ->
  exists rest, stdin s = line :: rest /\ stdin s' = rest.
Proof.
  unfold input, gbind, write, call, print, emit; simpl.
  destruct (stdin s) as [|l rest]; [discriminate|].
  intros H. injection H as <- <-. exists rest. split; reflexivity.
Qed.

Lemma input_settles (prompt : string) (s : session) :
  fst (input prompt s) <> Unfinished.
Proof.
  unfold input, gbind, write, call, print, emit; simpl.
  destruct (stdin s); discriminate.
Qed.

(** The loop of lines 13-21 ends; a move it delivers was read from a line
    of the input, and that line and all before it are used up. *)
Lemma ask_move_reads (b : Board) (turns : nat) :
  forall (s : session),
    (List.length (stdin s) < turns)%nat ->
    match ask_move turns b s with
    | (Done m, s') =>
        exists skipped line,
          stdin s = skipped ++ line :: stdin s' /\
          read_move b line = Some m
    | (Failed _, _) => True
    | (Unfinished, _) => False
    end.
Proof.
  induction turns as [|turns IH]; intros s Hlen; [lia|].
  cbn [ask_move]. unfold gbind at 1.
  destruct (choice (map (fun m => san b (Some m)) (legal_moves b)) s)
    as [[san_option|e|] s1] eqn:H1; [|exact I|].
  2:{ pose proof (choice_settles (map (fun m => san b (Some m)) (legal_moves b)) s)
        as Hc. rewrite H1 in Hc. apply Hc. reflexivity. }
  destruct (choice_inv _ _ _ _ H1) as [Hs1 _].
  unfold gbind at 1.
  destruct (choice (map uci (legal_moves b)) s1) as [[uci_option|e|] s2] eqn:H2;
    [|exact I|].
  2:{ pose proof (choice_settles (map uci (legal_moves b)) s1) as Hc.
      rewrite H2 in Hc. apply Hc. reflexivity. }
  destruct (choice_inv _ _ _ _ H2) as [Hs2 _].
  unfold gbind at 1.
  destruct (input ("Your move (e.g. " ++ san_option ++ " or " ++ uci_option ++ "): ") s2)
    as [[text|e|] s3] eqn:H3; [|exact I|].
  2:{ pose proof (input_settles
                    ("Your move (e.g. " ++ san_option ++ " or " ++ uci_option ++ "): ")
                    s2) as Hc.
      rewrite H3 in Hc. apply Hc. reflexivity. }
  destruct (input_inv _ _ _ _ H3) as (rest & Hin & Hs3).
  rewrite Hs2, Hs1 in Hin.
  destruct (read_move b text) as [m|] eqn:Hread.
  - exists [], text. rewrite Hs3. split; [exact Hin | exact Hread].
  - specialize (IH s3 ltac:(rewrite Hs3; rewrite Hin in Hlen; simpl in Hlen; lia)).
    destruct (ask_move turns b s3) as [[m|e|] s4]; try exact IH.
    destruct IH as (skipped & line & Hsk & Hm).
    exists (text :: skipped), line. split; [|exact Hm].
    rewrite Hin, <- Hs3, Hsk. reflexivity.
Qed.

Lemma get_user_move_within_reads (b : Board) (calls : nat) :
  forall (s : session),
    (List.length (stdin s) < calls)%nat ->
    match get_user_move_within calls b s with
    | (Done m, s') =>
        existsb (move_eqb m) (legal_moves b) = true /\
        exists skipped line,
          stdin s = skipped ++ line :: stdin s' /\
          read_move b line = Some m
    | (Failed _, _) => True
    | (Unfinished, _) => False
    end.
Proof.
  induction calls as [|calls IH]; intros s Hlen; [lia|].
  cbn [get_user_move_within]. unfold gbind at 1.
  pose proof (ask_move_reads b (S (List.length (stdin s))) s ltac:(lia)) as Hask.
  destruct (ask_move (S (List.length (stdin s))) b s) as [[m|e|] s1];
    [|exact I|contradiction].
  destruct Hask as (skipped & line & Hsk & Hm).
  destruct (existsb (move_eqb m) (legal_moves b)) eqn:Hlegal; cbn [negb].
  - split; [exact Hlegal|]. exists skipped, line. split; assumption.
  - unfold gbind at 1.
    change (write ("Illegal move." ++ nl) s1)
      with (Done tt, wrote [("Illegal move." ++ nl)%string] s1).
    cbv iota.
    assert (Hlen1 : (List.length (stdin (wrote [("Illegal move." ++ nl)%string] s1))
                     < calls)%nat).
    { change (stdin (wrote [("Illegal move." ++ nl)%string] s1)) with (stdin s1).
      rewrite Hsk, length_app in Hlen. simpl in Hlen. lia. }
    specialize (IH _ Hlen1).
    destruct (get_user_move_within calls b
                (wrote [("Illegal move." ++ nl)%string] s1)) as [[m'|e|] s2];
      try exact IH.
    destruct IH as (Hlegal' & skipped' & line' & Hsk' & Hm').
    split; [exact Hlegal'|].
    exists (skipped ++ line :: skipped'), line'. split; [|exact Hm'].
    change (stdin (wrote [("Illegal move." ++ nl)%string] s1)) with (stdin s1) in Hsk'.
    rewrite Hsk, Hsk', <- app_assoc. reflexivity.
Qed.

(** X13: [get_user_move] always ends.  A move it returns is a legal move
    of the board, and it is what the two parsers make of one of the lines
    typed, every line up to that one being used up; with no legal move on the
    board it raises [IndexError] from [random.choice] before asking
    anything.  When a line reads both as SAN and as UCI, the UCI reading
    counts. *)
Theorem get_user_move_is_legal (b : Board) (s : session) :
  match get_user_move b s with
  | (Done m, s') =>
      existsb (move_eqb m) (legal_moves b) = true /\
      exists skipped line,
        stdin s = skipped ++ line :: stdin s' /\
        read_move b line = Some m
  | (Failed _, _) => True
  | (Unfinished, _) => False
  end /\
  (legal_moves b = [] ->
   get_user_move b s = (Failed (Builtin IndexError), s)) /\
  (forall text m, from_uci text = Some m -> read_move b text = Some m).
Proof.
  split; [|split].
  - unfold get_user_move. apply get_user_move_within_reads. lia.
  - intros Hnone. unfold get_user_move. cbn [get_user_move_within ask_move].
    unfold gbind, choice. rewrite Hnone. reflexivity.
  - intros text m Hm. unfold read_move. rewrite Hm. reflexivity.
Qed.
End UserMoveFacts.

(** ** The game loops *)

Section GameFacts.
Context {Board Move Prior Value Nap : Type}
        {E : Engine Board Move Prior Value} {R : Rules Board Move}.

#[local] Abbreviation GM := (GM Board Move Prior Value Nap).
#[local] Abbreviation session := (session Board Move Prior Value Nap).

Lemma gbind_done_inv {A B} (m : GM A) (k : A -> GM B) (s s' : session) (b : B) :
  gbind m k s = (Done b, s') ->
  exists a s1, m s = (Done a, s1) /\ k a s1 = (Done b, s').
Proof.
  unfold gbind. destruct (m s) as [[a|e|] s1]; intros H; try discriminate.
  exists a, s1. split; [reflexivity | exact H].
Qed.

Lemma gbind_not_done {A B} (m : GM A) (k : A -> GM B) (s : session) :
  (forall a s1, m s = (Done a, s1) -> is_done (fst (k a s1)) = false) ->
  is_done (fst (gbind m k s)) = false.
Proof.
  intros H. unfold gbind. destruct (m s) as [[a|e|] s1] eqn:Hm; try reflexivity.
  apply (H a s1 eq_refl).
Qed.

(** *** Computations away from the keyboard *)

Lemma offline_gbind {A B} (m : GM A) (k : A -> GM B) :
  offline m -> (forall a, offline (k a)) -> offline (gbind m k).
Proof.
  intros Hm Hk s. destruct (Hm s) as (H1 & H2 & H3). unfold gbind.
  destruct (m s) as [[a|e|] s1]; simpl in *.
  - destruct (Hk a s1) as (K1 & K2 & K3). rewrite K1, K2, K3.
    repeat split; assumption.
  - repeat split; assumption.
  - repeat split; assumption.
Qed.

Lemma offline_same {A} (m : GM A) : (forall s, snd (m s) = s) -> offline m.
Proof. intros H s. rewrite H. repeat split. Qed.

Lemma offline_call {A} (m : M Board Move Prior Value A) : offline (call m : GM A).
Proof.
  intros s. unfold call. destruct (m (ctl s)) as [[a|e|] w]; repeat split.
Qed.

Lemma offline_print_unicode_board (b : Board) (perspective : bool) :
  offline (print_unicode_board b perspective : GM unit).
Proof.
  unfold print_unicode_board.
  apply offline_gbind; [apply offline_call | intros _].
  destruct (board_picture (board_str b) perspective) as [[ranks files]|e|].
  - apply offline_gbind; [apply offline_call | intros _; apply offline_call].
  - apply offline_same. reflexivity.
  - apply offline_same. reflexivity.
Qed.

Lemma offline_self_play_loop (plies depth : nat) (rand debug : bool) :
  forall b, offline (self_play_loop plies depth rand debug b : GM Board).
Proof.
  induction plies as [|plies IH]; intros b; cbn [self_play_loop];
    destruct (is_game_over b); try (apply offline_same; reflexivity).
  apply offline_gbind; [apply offline_print_unicode_board | intros _].
  apply offline_gbind; [apply offline_call | intros m].
  apply offline_gbind; [apply offline_call | intros _].
  apply IH.
Qed.

Lemma self_play_loop_done (plies depth : nat) (rand debug : bool) :
  forall (b b' : Board) (s s' : session),
    self_play_loop plies depth rand debug b s = (Done b', s') ->
    is_game_over b' = true.
Proof.
  induction plies as [|plies IH]; intros b b' s s' Hrun; cbn [self_play_loop] in Hrun;
    destruct (is_game_over b) eqn:Hover;
    try (injection Hrun as <- _; exact Hover); try discriminate.
  apply gbind_done_inv in Hrun. destruct Hrun as ([] & s1 & _ & Hrun).
  apply gbind_done_inv in Hrun. destruct Hrun as (m & s2 & _ & Hrun).
  apply gbind_done_inv in Hrun. destruct Hrun as ([] & s3 & _ & Hrun).
  exact (IH _ _ _ _ Hrun).
Qed.

(** *** Computations away from the engine *)

Lemma hands_off_gbind {A B} (m : GM A) (k : A -> GM B) :
  hands_off m -> (forall a, hands_off (k a)) -> hands_off (gbind m k).
Proof.
  intros Hm Hk s. destruct (Hm s) as (o1 & E1 & R1). unfold gbind.
  destruct (m s) as [[a|e|] s1]; simpl in *.
  - destruct (Hk a s1) as (o2 & E2 & R2). exists (o1 ++ o2).
    rewrite E2, E1, say_say, rollouts_app, R1, R2. split; reflexivity.
  - exists o1. split; assumption.
  - exists o1. split; assumption.
Qed.

Lemma hands_off_same {A} (m : GM A) : (forall s, snd (m s) = s) -> hands_off m.
Proof.
  intros H s. rewrite H. exists []. rewrite say_nil. split; reflexivity.
Qed.

Lemma hands_off_write (text : string) : hands_off (write text : GM unit).
Proof. intros s. exists [Print text]. split; reflexivity. Qed.

Lemma hands_off_print_unicode_board (b : Board) (perspective : bool) :
  hands_off (print_unicode_board b perspective : GM unit).
Proof.
  unfold print_unicode_board.
  apply hands_off_gbind; [apply hands_off_write | intros _].
  destruct (board_picture (board_str b) perspective) as [[ranks files]|e|].
  - apply hands_off_gbind; [apply hands_off_write | intros _; apply hands_off_write].
  - apply hands_off_same. reflexivity.
  - apply hands_off_same. reflexivity.
Qed.

(** X14: [self_play] never reads the keyboard, draws no random number and
    never sleeps; when it returns, the game on the board is over; and on a
    board whose game is over already it only prints (the board and the
    result): the controller is left alone and the engine is not called. *)
Theorem self_play_plays_to_the_end
        (plies depth : nat) (rand debug : bool) (board : option Board) (s : session) :
  let b := match board with Some b => b | None => starting_board end in
  let run := self_play plies depth rand debug board s in
  (stdin (snd run) = stdin s /\ thrown (snd run) = thrown s /\
   naps (snd run) = naps s) /\
  (forall b', fst run = Done b' -> is_game_over b' = true) /\
  (is_game_over b = true ->
   (fst run = Done b \/ fst run = Failed KeyError) /\
   exists out, ctl (snd run) = say out (ctl s) /\ rollouts out = O).
Proof.
  intros b run. split; [|split].
  - subst run. unfold self_play.
    apply offline_gbind; [apply offline_self_play_loop | intros b'].
    apply offline_gbind; [apply offline_print_unicode_board | intros _].
    apply offline_gbind; [apply offline_call | intros _].
    apply offline_same. reflexivity.
  - intros b' Hdone. subst run. unfold self_play in Hdone.
    match type of Hdone with
    | fst ?t = _ => destruct t as [o s'] eqn:Hrun
    end.
    simpl in Hdone. subst o.
    apply gbind_done_inv in Hrun. destruct Hrun as (b1 & s1 & Hloop & Hrun).
    apply gbind_done_inv in Hrun. destruct Hrun as ([] & s2 & _ & Hrun).
    apply gbind_done_inv in Hrun. destruct Hrun as ([] & s3 & _ & Hrun).
    injection Hrun as <- _.
    exact (self_play_loop_done _ _ _ _ _ _ _ _ Hloop).
  - intros Hover. subst run. unfold self_play. fold b.
    assert (Hloop : self_play_loop plies depth rand debug b s = (Done b, s)).
    { destruct plies; cbn [self_play_loop]; rewrite Hover; reflexivity. }
    rewrite (gbind_done_run _ _ _ _ _ Hloop).
    split.
    + unfold print_unicode_board, gbind.
      change (write nl s) with (Done tt, wrote [nl] s). cbv iota.
      destruct (board_picture (board_str b) true) as [[ranks files]|e|] eqn:Hpic.
      * left. reflexivity.
      * right. unfold board_picture in Hpic.
        destruct (paint_all _ _) as [colored|e'|] eqn:Hp; try discriminate.
        injection Hpic as <-.
        assert (He : forall cells colored0 e0,
                   paint_all cells colored0 = Failed e0 -> e0 = KeyError).
        { clear. induction cells as [|[i p] cells IH]; intros colored0 e0; simpl.
          - discriminate.
          - rewrite paint_run.
            destruct (dict_get uni_pieces p) as [g|e|].
            + apply IH.
            + intros H. injection H as <-. reflexivity.
            + discriminate. }
        rewrite (He _ _ _ Hp). reflexivity.
      * exfalso. unfold board_picture in Hpic.
        destruct (paint_all _ _) as [colored|e'|] eqn:Hp; try discriminate.
        assert (Hs : forall cells colored0, paint_all cells colored0 <> Unfinished).
        { clear. induction cells as [|[i p] cells IH]; intros colored0; simpl.
          - discriminate.
          - rewrite paint_run.
            destruct (dict_get uni_pieces p) as [g|e|] eqn:Hg.
            + apply IH.
            + discriminate.
            + exfalso. exact (dict_get_settles _ _ Hg). }
        exact (Hs _ _ Hp).
    + apply (hands_off_gbind (print_unicode_board b true)
               (fun _ => write ("Result: " ++ result b ++ nl) ;~ gret b)).
      * apply hands_off_print_unicode_board.
      * intros _. apply hands_off_gbind; [apply hands_off_write | intros _].
        apply hands_off_same. reflexivity.
Qed.

(** X15: with [rand] set, [self_play] never completes a move: on a board
    whose game is not over it cannot return, because the stochastic
    [find_move] it calls never returns a move. *)
Theorem self_play_random_never_moves
        (plies depth : nat) (debug : bool) (board : option Board) (s : session) :
  is_game_over (match board with Some b => b | None => starting_board end) = false ->
  is_done (fst (self_play plies depth true debug board s)) = false.
Proof.
  intros Hover. unfold self_play. apply gbind_not_done.
  intros b' s1 Hloop. exfalso.
  destruct plies as [|plies]; cbn [self_play_loop] in Hloop; rewrite Hover in Hloop.
  - discriminate.
  - apply gbind_done_inv in Hloop. destruct Hloop as ([] & s2 & _ & Hloop).
    apply gbind_done_inv in Hloop. destruct Hloop as (m & s3 & Hcall & _).
    unfold call in Hcall.
    pose proof (find_move_random_never_returns depth
                  (match board with Some b => b | None => starting_board end)
                  debug (ctl s2)) as Hnever.
    destruct (find_move depth _ debug true (ctl s2)) as [[m'|e|] w];
      try discriminate.
Qed.
End GameFacts.

Section PlayFacts.
Context {Board Move Prior Value Nap : Type}
        {E : Engine Board Move Prior Value} {R : Rules Board Move}.

#[local] Abbreviation GM := (GM Board Move Prior Value Nap).
#[local] Abbreviation session := (session Board Move Prior Value Nap).

Lemma dozes_gbind {A B} (nap : Nap) (n1 n2 : nat) (m : GM A) (k : A -> GM B) :
  dozes nap n1 m -> (forall a, dozes nap n2 (k a)) ->
  dozes nap (n1 + n2) (gbind m k).
Proof.
  intros Hm Hk s. destruct (Hm s) as (k1 & L1 & E1). unfold gbind.
  destruct (m s) as [[a|e|] s1]; simpl in *.
  - destruct (Hk a s1) as (k2 & L2 & E2). exists (k1 + k2)%nat.
    split; [lia|]. rewrite E2, E1, repeat_app, app_assoc. reflexivity.
  - exists k1. split; [lia | exact E1].
  - exists k1. split; [lia | exact E1].
Qed.

Lemma dozes_none {A} (nap : Nap) (n : nat) (m : GM A) :
  (forall s, naps (snd (m s)) = naps s) -> dozes nap n m.
Proof.
  intros H s. exists O. split; [lia|]. rewrite H. simpl. rewrite app_nil_r.
  reflexivity.
Qed.

Lemma dozes_offline {A} (nap : Nap) (n : nat) (m : GM A) :
  offline m -> dozes nap n m.
Proof. intros H. apply dozes_none. intros s. apply (H s). Qed.

Lemma dozes_more {A} (nap : Nap) (n n' : nat) (m : GM A) :
  (n <= n')%nat -> dozes nap n m -> dozes nap n' m.
Proof.
  intros Hle H s. destruct (H s) as (k & Hk & Hn). exists k. split; [lia | exact Hn].
Qed.

Lemma dozes_input (nap : Nap) (prompt : string) : dozes nap 0 (input prompt : GM string).
Proof.
  apply dozes_none. intros s. unfold input, gbind, write, call, print, emit; simpl.
  destruct (stdin s); reflexivity.
Qed.

Lemma dozes_choice {A} (nap : Nap) (seq : list A) : dozes nap 0 (choice seq : GM A).
Proof.
  apply dozes_none. intros s. unfold choice. destruct seq; reflexivity.
Qed.

Lemma dozes_ask_colour (nap : Nap) (turns : nat) :
  forall color, dozes nap 0 (ask_colour turns color : GM bool).
Proof.
  induction turns as [|turns IH]; intros color; cbn [ask_colour];
    destruct (String.eqb color "white" || String.eqb color "black");
    try (apply dozes_none; reflexivity).
  apply (dozes_gbind nap 0 0); [apply dozes_input | intros color'; apply IH].
Qed.

Lemma dozes_ask_move (nap : Nap) (b : Board) (turns : nat) :
  dozes nap 0 (ask_move turns b : GM Move).
Proof.
  induction turns as [|turns IH]; cbn [ask_move].
  - apply dozes_none. reflexivity.
  - apply (dozes_gbind nap 0 0); [apply dozes_choice | intros san_option].
    apply (dozes_gbind nap 0 0); [apply dozes_choice | intros uci_option].
    apply (dozes_gbind nap 0 0); [apply dozes_input | intros text].
    destruct (read_move b text); [apply dozes_none; reflexivity | exact IH].
Qed.

Lemma dozes_get_user_move_within (nap : Nap) (b : Board) (calls : nat) :
  dozes nap 0 (get_user_move_within calls b : GM Move).
Proof.
  induction calls as [|calls IH]; cbn [get_user_move_within].
  - apply dozes_none. reflexivity.
  - apply (dozes_gbind nap 0 0).
    + intros s. apply (dozes_ask_move nap b (S (List.length (stdin s))) s).
    + intros m. destruct (negb (existsb (move_eqb m) (legal_moves b))).
      * apply (dozes_gbind nap 0 0); [|intros _; exact IH].
        apply dozes_offline, offline_call.
      * apply dozes_none. reflexivity.
Qed.

Lemma dozes_play_loop (nap : Nap) (depth : nat) (rand debug user_color : bool)
      (plies : nat) :
  forall b, dozes nap plies (play_loop plies depth rand debug nap user_color b : GM Board).
Proof.
  induction plies as [|plies IH]; intros b; cbn [play_loop];
    destruct (is_game_over b); try (apply dozes_none; reflexivity).
  apply (dozes_gbind nap 0 (S plies));
    [apply dozes_offline, offline_print_unicode_board | intros _].
  apply (dozes_gbind nap 1 plies); [|intros m; apply IH].
  destruct (Bool.eqb user_color (turn b)).
  - apply (dozes_more nap 0 1); [lia|].
    apply (dozes_gbind nap 0 0); [|intros m; apply dozes_none; reflexivity].
    intros s. apply (dozes_get_user_move_within nap b (S (List.length (stdin s))) s).
  - apply (dozes_gbind nap 1 0).
    + intros s. exists 1%nat. split; [lia | reflexivity].
    + intros _. apply (dozes_gbind nap 0 0); [apply dozes_offline, offline_call|].
      intros m. apply (dozes_gbind nap 0 0); [apply dozes_offline, offline_call|].
      intros _. apply dozes_none. reflexivity.
Qed.

Lemma play_loop_done (nap : Nap) (depth : nat) (rand debug user_color : bool)
      (plies : nat) :
  forall (b b' : Board) (s s' : session),
    play_loop plies depth rand debug nap user_color b s = (Done b', s') ->
    is_game_over b' = true.
Proof.
  induction plies as [|plies IH]; intros b b' s s' Hrun; cbn [play_loop] in Hrun;
    destruct (is_game_over b) eqn:Hover;
    try (injection Hrun as <- _; exact Hover); try discriminate.
  apply gbind_done_inv in Hrun. destruct Hrun as ([] & s1 & _ & Hrun).
  apply gbind_done_inv in Hrun. destruct Hrun as (m & s2 & _ & Hrun).
  exact (IH _ _ _ _ Hrun).
Qed.

(** X16: when [play] returns, the game on the board is over; and whatever
    its outcome, every nap it took was of the configured length, at most one
    per ply played. *)
Theorem play_plays_to_the_end
        (plies depth : nat) (rand debug : bool) (nap : Nap) (board : option Board)
        (s : session) :
  let run := play plies depth rand debug nap board s in
  (forall b', fst run = Done b' -> is_game_over b' = true) /\
  exists k, (k <= plies)%nat /\ naps (snd run) = naps s ++ repeat nap k.
Proof.
  intros run. split.
  - intros b' Hdone. subst run. unfold play in Hdone.
    match type of Hdone with
    | fst ?t = _ => destruct t as [o s'] eqn:Hrun
    end.
    simpl in Hdone. subst o.
    apply gbind_done_inv in Hrun. destruct Hrun as (color & s0 & _ & Hrun).
    apply gbind_done_inv in Hrun. destruct Hrun as (b1 & s1 & Hloop & Hrun).
    apply gbind_done_inv in Hrun. destruct Hrun as ([] & s2 & _ & Hrun).
    apply gbind_done_inv in Hrun. destruct Hrun as ([] & s3 & _ & Hrun).
    injection Hrun as <- _.
    exact (play_loop_done _ _ _ _ _ _ _ _ _ _ Hloop).
  - subst run. unfold play.
    assert (H : dozes nap (0 + (plies + 0))
      (user_color <~ get_user_color ;;
       b' <~ play_loop plies depth rand debug nap user_color
               (match board with Some b => b | None => starting_board end) ;;
       print_unicode_board b' user_color ;~
       write ("Result: " ++ result b' ++ nl) ;~ gret b' : GM Board)).
    { apply dozes_gbind.
      - intros s0. apply (dozes_ask_colour nap (S (List.length (stdin s0))) ""%string s0).
      - intros color. apply dozes_gbind; [apply dozes_play_loop | intros b'].
        apply (dozes_gbind nap 0 0);
          [apply dozes_offline, offline_print_unicode_board | intros _].
        apply (dozes_gbind nap 0 0); [apply dozes_offline, offline_call | intros _].
        apply dozes_none. reflexivity. }
    destruct (H s) as (k & Hk & Hn). exists k. split; [lia | exact Hn].
Qed.
End PlayFacts.

(** ** The further properties on concrete runs *)

#[local] Existing Instance ToyGame.rules.

(** X2 on the 50/30/20 root. *)
Lemma first_pv_starts_with_selected_child_witness :
  exists best pb rest,
    pick_child false (Toy.holding 1 0 Toy.root_50_30_20)
    = (Ret (move best), with_node best (Toy.holding 1 0 Toy.root_50_30_20)) /\
    parent_board best = Some pb /\
    ["m40.0 50% (0)"%string]
    = (san pb (move best) ++ " " ++ fmt_share (N best) (N Toy.root_50_30_20)
       ++ " (" ++ fmt_neg_value (Q best) ++ ")")%string :: rest.
Proof.
  apply (first_pv_starts_with_selected_child (E := Toy.engine)
           (Toy.holding 1 0 Toy.root_50_30_20) Toy.root_50_30_20
           (Toy.leaf 39 40 0 50) [Toy.leaf 38 40 1 30; Toy.leaf 37 40 2 20]
           ["m40.0 50% (0)"%string]).
  - reflexivity.
  - reflexivity.
  - vm_compute; reflexivity.
Defined.

(** X3 on the 50/30/20 root, asked for two lines. *)
Lemma print_pvs_report_witness :
  exists r lines,
    node (self (Toy.holding 10 2 Toy.root_50_30_20)) = Some r /\
    let k := Z.min 2 (Z.of_nat (List.length (children r))) in
    snd (print_pvs (Toy.holding 10 2 Toy.root_50_30_20))
    = say (map Print lines
           ++ [Print (esc ++ "[1000D"); Print (esc ++ "[" ++ py_str k ++ "A")])
          (Toy.holding 10 2 Toy.root_50_30_20) /\
    List.length lines = Z.to_nat k /\
    forall j, (j < Z.to_nat k)%nat ->
      exists pv,
        pv_moves r (Z.of_nat j) = Ret pv /\
        nth_error lines j
        = Some ("Pv" ++ py_str (Z.of_nat j + 1) ++ ": "
                ++ join ", " (clip_pv pv) ++ nl)%string.
Proof.
  apply (print_pvs_report (E := Toy.engine)
           (Toy.holding 10 2 Toy.root_50_30_20)
           (snd (print_pvs (Toy.holding 10 2 Toy.root_50_30_20)))).
  vm_compute; reflexivity.
Defined.


(** X6 on a new controller, and on the 50/30/20 root for its own board and
    for a board it does not know. *)
Lemma acquire_root_rebuilds_or_keeps_witness :
  acquire_root 40%nat true (Toy.fresh 1 0)
  = (Ret tt, say [Print creating_notice] (with_node (new_node 40%nat) (Toy.fresh 1 0))) /\
  acquire_root 40%nat true (Toy.holding 1 0 Toy.root_50_30_20)
  = (Ret tt, Toy.holding 1 0 Toy.root_50_30_20) /\
  acquire_root 7%nat true (Toy.holding 1 0 Toy.root_50_30_20)
  = (Ret tt, say [Print creating_notice]
               (with_node (new_node 7%nat) (Toy.holding 1 0 Toy.root_50_30_20))).
Proof.
  split; [|split].
  - apply (proj1 (acquire_root_rebuilds_or_keeps (E := Toy.engine)
                    40%nat true (Toy.fresh 1 0))).
    reflexivity.
  - apply (proj2 (acquire_root_rebuilds_or_keeps (E := Toy.engine)
                    40%nat true (Toy.holding 1 0 Toy.root_50_30_20))
             Toy.root_50_30_20).
    + reflexivity.
    + repeat constructor.
  - apply (proj2 (acquire_root_rebuilds_or_keeps (E := Toy.engine)
                    7%nat true (Toy.holding 1 0 Toy.root_50_30_20))
             Toy.root_50_30_20).
    + reflexivity.
    + repeat constructor.
Defined.


(** X10 on a1, the first square of the last rank line: a dark square. *)
Lemma squares_alternate_witness :
  paint (16 * 7 + 2 * 0 + 0) "R"%char []
  = Done [((if ((7 + 0) mod 2 =? 0)%Z then light_bg else dark_bg) ++ "♖")%string].
Proof.
  apply (squares_alternate 7 0 0 "R"%char "♖"%string []).
  - lia.
  - lia.
  - lia.
  - reflexivity.
Defined.

(** X11 on the starting position, and on a board text with a character the
    dict does not know. *)
Lemma print_unicode_board_outcome_witness :
  (exists ranks files,
      board_picture (board_str 40%nat) false = Done (ranks, files) /\
      print_unicode_board 40%nat false (ToyGame.sitting (Toy.fresh 1 0) [])
      = (Done tt, wrote [nl; ranks; files] (ToyGame.sitting (Toy.fresh 1 0) []))) /\
  print_unicode_board 99%nat true (ToyGame.sitting (Toy.fresh 1 0) [])
  = (Failed KeyError, wrote [nl] (ToyGame.sitting (Toy.fresh 1 0) [])).
Proof.
  split.
  - apply (proj1 (print_unicode_board_outcome (R := ToyGame.rules) 40%nat false
                    (ToyGame.sitting (Toy.fresh 1 0) []))).
    vm_compute. repeat (constructor; [eexists; reflexivity|]). constructor.
  - apply (proj2 (print_unicode_board_outcome (R := ToyGame.rules) 99%nat true
                    (ToyGame.sitting (Toy.fresh 1 0) []))).
    vm_compute. do 4 apply Exists_cons_tl. apply Exists_cons_hd.
    intros (g & Hg). vm_compute in Hg. discriminate.
Defined.

(** X12 on an input that answers [black] at the second attempt, and on one
    that never answers. *)
Lemma get_user_color_reads_witness :
  get_user_color (ToyGame.sitting (Toy.fresh 1 0) ["x"; "black"; "white"]%string)
  = (Done false,
     read_to ["white"%string]
       (wrote (repeat "Do you want to be white or black? "%string 2)
              (ToyGame.sitting (Toy.fresh 1 0) ["x"; "black"; "white"]%string))) /\
  get_user_color (ToyGame.sitting (Toy.fresh 1 0) ["x"; "y"]%string)
  = (Failed EOFError,
     read_to []
       (wrote (repeat "Do you want to be white or black? "%string 3)
              (ToyGame.sitting (Toy.fresh 1 0) ["x"; "y"]%string))).
Proof.
  split.
  - apply (proj1 (get_user_color_reads
                    (ToyGame.sitting (Toy.fresh 1 0) ["x"; "black"; "white"]%string))
             ["x"%string] "black"%string ["white"%string]).
    + reflexivity.
    + repeat constructor; discriminate.
    + right. reflexivity.
  - apply (proj2 (get_user_color_reads
                    (ToyGame.sitting (Toy.fresh 1 0) ["x"; "y"]%string))).
    repeat constructor; discriminate.
Defined.

(** X13 on a position without legal moves, and on the UCI text [u1]. *)
Lemma get_user_move_is_legal_witness :
  get_user_move 0%nat (ToyGame.sitting (Toy.fresh 1 0) ["u0"%string])
  = (Failed (Builtin IndexError), ToyGame.sitting (Toy.fresh 1 0) ["u0"%string]) /\
  read_move 30%nat "u1"%string = Some 1%nat.
Proof.
  destruct (get_user_move_is_legal (E := Toy.engine) (Nap := nat) 0%nat
              (ToyGame.sitting (Toy.fresh 1 0) ["u0"%string])) as (_ & Hnone & _).
  destruct (get_user_move_is_legal (E := Toy.engine) (Nap := nat) 30%nat
              (ToyGame.sitting (Toy.fresh 1 0) [])) as (_ & _ & Huci).
  split.
  - apply Hnone. reflexivity.
  - apply Huci. reflexivity.
Defined.

(** X14 on a game that is over before it begins. *)
Lemma self_play_plays_to_the_end_witness :
  let s := ToyGame.sitting (Toy.fresh 1 0) [] in
  (fst (self_play 5 5 false false (Some 0%nat) s) = Done 0%nat \/
   fst (self_play 5 5 false false (Some 0%nat) s) = Failed KeyError) /\
  exists out,
    ctl (snd (self_play 5 5 false false (Some 0%nat) s)) = say out (ctl s) /\
    rollouts out = O.
Proof.
  intros s.
  destruct (self_play_plays_to_the_end (E := Toy.engine) 5 5 false false
              (Some 0%nat) s) as (_ & _ & Hover).
  apply Hover. reflexivity.
Defined.

(** X15 on the position three moves from the end. *)
Lemma self_play_random_never_moves_witness :
  is_done (fst (self_play 5 5 true false (Some 3%nat)
                  (ToyGame.sitting (Toy.fresh 1 0) []))) = false.
Proof.
  apply (self_play_random_never_moves (E := Toy.engine) 5 5 false (Some 3%nat)
           (ToyGame.sitting (Toy.fresh 1 0) [])).
  reflexivity.
Defined.

(** X16 on a game of three plies in which the user has the second move. *)
Lemma play_plays_to_the_end_witness :
  let s := ToyGame.sitting (Toy.fresh 1 0) ["white"; "u0"; "u0"]%string in
  is_game_over 0%nat = true /\
  exists k, (k <= 5)%nat /\
    naps (snd (play 5 5 false false 7%nat (Some 3%nat) s)) = naps s ++ repeat 7%nat k.
Proof.
  intros s.
  destruct (play_plays_to_the_end (E := Toy.engine) 5 5 false false 7%nat
              (Some 3%nat) s) as (Hover & Hnaps).
  split.
  - apply (Hover 0%nat). vm_compute; reflexivity.
  - exact Hnaps.
Defined.

(** ** The extension round *)

Section ExtensionFacts.
Context {Board Move Prior Value : Type} {E : Engine Board Move Prior Value}.

#[local] Abbreviation Node := (Node Board Move Prior Value).
#[local] Abbreviation M := (M Board Move Prior Value).
#[local] Abbreviation world := (world Board Move Prior Value).

(** C4: when, at the post-budget test, the largest child visit count is below
    one fifth of the root's visit count (counts below 2^53, where the quotient
    of line 155 is below [.2] as a float too), [find_move] does not select:
    it prints the notice, after everything the round has written, and enters
    the nested call.  There the lookup of lines 128-139 keeps the very same
    root (the root's board is the supplied board, and no child's board is, a
    move having been played to reach it): nothing is constructed and nothing
    printed.  The extension round therefore applies its whole budget to that
    root, statistics included, and the call goes on from the world that round
    leaves: to the selection when the test now passes, to another notice and
    a further nested call when it does not.  Without diagnostics the
    extension round cannot fail. *)
Theorem low_concentration_extends_same_root
        (b : Board) (debug pick_random : bool)
        (w w1 : world) (r : Node) (top : Z) :
  search_round b debug w = (Ret tt, w1) ->
  node (self w1) = Some r ->
  py_max (map N (children r)) = Ret top ->
  0 < N r ->
  N r < 2 ^ 53 ->
  5 * top < N r ->
  board_eqb (board r) b = true ->
  Forall (fun c => board_eqb (board c) b = false) (children r) ->
  let w2 := say [Print thinking_notice] w1 in
  find_move 1 b debug pick_random w = (OutOfFuel, w2) /\
  (forall fuel, exists out,
      trace (snd (find_move (S fuel) b debug pick_random w))
      = trace w1 ++ Print thinking_notice :: out) /\
  acquire_root b debug w2 = (Ret tt, w2) /\
  (forall w3, search_round b debug w2 = (Ret tt, w3) ->
     (exists out,
         w3 = say out (with_node (Nat.iter (budget (self w)) rollout r) w2) /\
         rollouts out = budget (self w)) /\
     find_move 2 b debug pick_random w
     = match fst (concentration_low w3) with
       | Ret true => (OutOfFuel, say [Print thinking_notice] w3)
       | Ret false => pick_child pick_random w3
       | Raise e => (Raise e, w3)
       | OutOfFuel => (OutOfFuel, w3)
       end) /\
  (pvs (self w) = 0 ->
   search_round b debug w2
   = (Ret tt,
      say (repeat Rollout (Z.to_nat (rolls (self w))))
          (with_node (Nat.iter (Z.to_nat (rolls (self w))) rollout r) w2))).
Proof.
  intros Hround Hr Hmax Hpos _ Hlt Hb Hkids w2.
  assert (Hr2 : node (self w2) = Some r) by exact Hr.
  assert (Hacq : acquire_root b debug w2 = (Ret tt, w2)).
  { rewrite acquire_root_run. unfold reused_root. rewrite Hr2.
    rewrite (find_none_Forall _ _ Hkids), Hb.
    rewrite (with_node_same w2 r Hr2). reflexivity. }
  destruct (search_round_inv b debug w w1 Hround)
    as (r0 & out0 & out & _ & _ & Hw1 & _ & _).
  assert (Hrolls : rolls (self w2) = rolls (self w))
    by (unfold w2; rewrite Hw1; reflexivity).
  assert (Hpvs : pvs (self w2) = pvs (self w))
    by (unfold w2; rewrite Hw1; reflexivity).
  assert (Hbud : budget (self w2) = budget (self w)).
  { unfold budget. rewrite Hrolls, Hpvs. reflexivity. }
  assert (Hstep : forall fuel,
    find_move (S fuel) b debug pick_random w = find_move fuel b debug pick_random w2).
  { intros fuel. rewrite (find_move_step fuel b debug pick_random w w1 Hround).
    rewrite (concentration_low_low w1 r top Hr Hmax Hpos Hlt). reflexivity. }
  assert (Hsame : forall r1 o0,
    (Ret tt, w2) = (Ret tt, say o0 (with_node r1 w2)) -> r1 = r /\ o0 = []).
  { intros r1 o0 Heq.
    pose proof (f_equal (fun p => node (self (snd p))) Heq) as Hnode.
    pose proof (f_equal (fun p => trace (snd p)) Heq) as Htrace.
    cbn in Hnode, Htrace. rewrite Hr in Hnode. injection Hnode as <-.
    split; [reflexivity|].
    rewrite <- (app_nil_r (trace w1 ++ [Print thinking_notice])) in Htrace at 1.
    apply app_inv_head in Htrace. symmetry. exact Htrace. }
  split; [|split; [|split; [exact Hacq|split]]].
  - rewrite Hstep. reflexivity.
  - intros fuel. rewrite Hstep.
    destruct (steady_find_move fuel b debug pick_random w2) as (_ & _ & _ & o & Ho).
    exists o. rewrite Ho. unfold w2; simpl. rewrite <- app_assoc. reflexivity.
  - intros w3 H3.
    destruct (search_round_inv b debug w2 w3 H3)
      as (r1 & o0 & o & Hacq1 & _ & Hw3 & Ho & _).
    rewrite Hacq in Hacq1. destruct (Hsame r1 o0 Hacq1) as [-> ->].
    split.
    + exists o. rewrite <- Hbud. split; [exact Hw3 | exact Ho].
    + rewrite Hstep. rewrite (find_move_step 0 b debug pick_random w2 w3 H3).
      destruct (concentration_low w3) as [o' w4] eqn:Hconc.
      pose proof (concentration_low_frame _ _ _ Hconc) as ->.
      destruct o' as [[|]|e|]; reflexivity.
  - intros Hp.
    assert (Hp2 : pvs (self w2) = 0) by (rewrite Hpvs; exact Hp).
    destruct (search_round_plain b debug w2 Hp2) as (r1 & o0 & Hacq1 & _ & Hrun).
    rewrite Hacq in Hacq1. destruct (Hsame r1 o0 Hacq1) as [-> ->].
    rewrite Hrun, Hrolls. reflexivity.
Qed.
End ExtensionFacts.

(** C4 on a fresh root with three unvisited children: after one iteration
    the root has one visit and its children none. *)
Lemma low_concentration_extends_same_root_witness :
  let w := Toy.fresh 1 0 in
  let w1 := Toy.after_round 30 false w in
  let w2 := say [Print thinking_notice] w1 in
  find_move 1 30%nat false false w = (OutOfFuel, w2) /\
  acquire_root 30%nat false w2 = (Ret tt, w2) /\
  search_round 30%nat false w2
  = (Ret tt, say (repeat Rollout 1)
                 (with_node (Nat.iter 1 rollout (Toy.root_of w1)) w2)) /\
  find_move 2 30%nat false false w
  = pick_child false (Toy.after_round 30 false w2).
Proof.
  intros w w1 w2.
  destruct (low_concentration_extends_same_root (E := Toy.engine)
              30%nat false false w w1 (Toy.root_of w1) 0)
    as (H1 & _ & H2 & H4 & H3).
  - vm_compute; reflexivity.
  - vm_compute; reflexivity.
  - vm_compute; reflexivity.
  - vm_compute; reflexivity.
  - vm_compute; reflexivity.
  - vm_compute; reflexivity.
  - vm_compute; reflexivity.
  - vm_compute. repeat constructor.
  - split; [exact H1|]. split; [exact H2|]. split; [apply H3; reflexivity|].
    destruct (H4 (Toy.after_round 30 false w2)) as [_ Hnext].
    + vm_compute; reflexivity.
    + rewrite Hnext. vm_compute; reflexivity.
Defined.
